(** * Function components: the [component] decorator and its executor

    A shallow embedding of [tfx/components/base/decorators.py]: the
    executor base class [_FunctionExecutor] with its [Do] method, and the
    [component] decorator that synthesises a component specification and
    an executor class from a typehint-annotated function.

    Python objects that are mutated in place (artifacts) live in a store
    indexed by object identity; the artifact dictionaries handed to [Do]
    hold references, so two dictionary entries may name one object. *)

From Stdlib Require Import ZArith String Ascii List Bool.
From Stdlib Require Import Floats.SpecFloat.
From stdpp Require Import base gmap strings list fin_maps.

Set Warnings "-register-all".

Open Scope Z_scope.
Open Scope string_scope.
Open Scope list_scope.

(** ** Python values *)

(** Identity of an artifact object. *)
Definition loc := nat.

(** The values that flow through a function component: primitives, the
    containers a function may return, and references to artifacts.
    Floats are IEEE 754 binary64 numbers ([spec_float] at precision 53). *)
Inductive Value : Type :=
| VNone
| VBool (b : bool)
| VInt (z : Z)
| VFloat (f : spec_float)
| VStr (s : string)
| VBytes (b : list Byte.byte)
| VList (l : list Value)
| VDict (d : list (Value * Value))
| VArtifact (a : loc).

(** Truth value of an object, as tested by [or], [if] and [not]. *)
Definition truthy (v : Value) : bool :=
  match v with
  | VNone => false
  | VBool b => b
  | VInt z => negb (Z.eqb z 0)
  | VFloat (S754_zero _) => false
  | VFloat _ => true
  | VStr s => negb (String.eqb s "")
  | VBytes b => match b with [] => false | _ => true end
  | VList l => match l with [] => false | _ => true end
  | VDict d => match d with [] => false | _ => true end
  | VArtifact _ => true
  end.

(** [x or y]. *)
Definition py_or (x y : Value) : Value := if truthy x then x else y.

(** [isinstance(v, dict)]. *)
Definition isinstance_dict (v : Value) : bool :=
  match v with VDict _ => true | _ => false end.

(** Does dictionary key [k] equal the string [name]? *)
Definition key_is (name : string) (k : Value) : bool :=
  match k with VStr s => String.eqb s name | _ => false end.

(** [d[name]] on a returned dictionary; [None] when [name not in d]. *)
Fixpoint dict_get (d : list (Value * Value)) (name : string) : option Value :=
  match d with
  | [] => None
  | (k, v) :: rest => if key_is name k then Some v else dict_get rest name
  end.

(** ** Artifacts

    Modelled from the spec: the class [tfx.types.Artifact] is not under
    [src/]. The spec gives an artifact a location string and, for
    primitive kinds, a readable and writable scalar value; every other
    attribute is gathered in [properties]. A value slot that was never
    written holds whatever the artifact was created with. *)
Record Artifact : Type := mkArtifact {
  type_name : string;
  uri : string;
  value : Value;
  properties : list (string * Value)
}.

Definition set_value (a : Artifact) (v : Value) : Artifact :=
  {| type_name := type_name a; uri := uri a; value := v;
     properties := properties a |}.

(** The object store. *)
Definition Heap := loc -> Artifact.

Definition heap_set_value (h : Heap) (l : loc) (v : Value) : Heap :=
  fun l' => if Nat.eqb l' l then set_value (h l) v else h l'.

(** ** Argument formats

    Modelled from the spec: the enumeration [ArgFormats] of
    [tfx.components.base.function_parser] is not under [src/]; the spec
    lists its five roles. *)
Inductive ArgFormats : Type :=
| INPUT_ARTIFACT
| INPUT_URI
| OUTPUT_ARTIFACT
| OUTPUT_URI
| ARTIFACT_VALUE.

(** What is stored next to a parameter name in [_ARG_FORMATS]: a member
    of the enumeration, or (the attribute being untyped) anything else. *)
Inductive ArgFormat : Type :=
| Member (m : ArgFormats)
| NotMember (v : Value).

(** ** Exceptions and log records *)

Inductive ErrorMessage : Type :=
| Unknown_argument_format (arg_format : ArgFormat)
| Not_at_module_level
| Python3_only
| Message (s : string).

Inductive Exn : Type :=
| KeyError (key : string)
| IndexError
| ValueError (msg : ErrorMessage)
| EnvironmentError (msg : ErrorMessage)
| TypeError
| OverflowError
| AssertionError (v : Value)
| SignatureError (parameter : string).

(** Records written through [absl.logging]. The two warnings of [Do]
    are kept apart from whatever the wrapped function logs itself. *)
Inductive LogRecord : Type :=
| Warning_not_a_dict (function_name : string) (outputs : Value)
| Warning_missing_output (name : string)
| Other_record (s : string).

(** ** A state and exception monad *)

Inductive Result (A : Type) : Type :=
| Ok (a : A)
| Raise (e : Exn).
Arguments Ok {A} a.
Arguments Raise {A} e.

Definition M (S A : Type) : Type := S -> Result A * S.

Definition ret {S A} (a : A) : M S A := fun s => (Ok a, s).
Definition raise {S A} (e : Exn) : M S A := fun s => (Raise e, s).
Definition bind {S A B} (m : M S A) (k : A -> M S B) : M S B :=
  fun s => match m s with
           | (Ok a, s') => k a s'
           | (Raise e, s') => (Raise e, s')
           end.
Definition lift_result {S A} (r : Result A) : M S A := fun s => (r, s).

Notation "x <- m ;; k" := (bind m (fun x => k))
  (at level 62, m at next level, right associativity).
Notation "m ;;; k" := (bind m (fun _ => k))
  (at level 62, right associativity).

(** The run-time state: the artifact store and the log. *)
Record State : Type := mkState {
  heap : Heap;
  log : list LogRecord
}.

Definition Run (A : Type) : Type := M State A.

Definition logging_warning (r : LogRecord) : Run unit :=
  fun st => (Ok tt, {| heap := heap st; log := log st ++ [r] |}).

(** [a.uri] and [a.value]. *)
Definition getattr_uri (a : loc) : Run Value :=
  fun st => (Ok (VStr (uri (heap st a))), st).
Definition getattr_value (a : loc) : Run Value :=
  fun st => (Ok (value (heap st a)), st).

(** [a.value = v]. *)
Definition setattr_value (a : loc) (v : Value) : Run unit :=
  fun st => (Ok tt, {| heap := heap_set_value (heap st) a v; log := log st |}).

(** [d[name]] on an artifact dictionary. *)
Definition dict_getitem {S} (d : gmap string (list loc)) (name : string)
  : M S (list loc) :=
  match d !! name with
  | Some l => ret l
  | None => raise (KeyError name)
  end.

(** [l[i]] for a non-negative index. *)
Definition list_getitem {S} (l : list loc) (i : nat) : M S loc :=
  match l !! i with
  | Some a => ret a
  | None => raise IndexError
  end.

(** ** Functions and annotations

    Modelled from the spec: the annotation classes of
    [tfx.components.base.annotations] are not under [src/]. *)
Inductive ArtifactKind : Type :=
| KArtifact (name : string)
| KInteger
| KFloat
| KString
| KBytes.

Inductive Primitive : Type := Pint | Pfloat | PText | Pbytes.

Inductive Annotation : Type :=
| InputArtifact (K : ArtifactKind)
| OutputArtifact (K : ArtifactKind)
| InputUri (K : ArtifactKind)
| OutputUri (K : ArtifactKind)
| PrimitiveType (p : Primitive)
| OtherAnnotation (s : string)
| NoAnnotation.

Inductive ReturnAnnotation : Type :=
| NoReturnAnnotation
| OutputDict (entries : list (string * Annotation))
| OtherReturnAnnotation (s : string).

(** A Python function object: its names, its signature and its code. The
    code receives the positional arguments and runs in the run-time
    state; it may raise, log and mutate the artifacts it is handed. *)
Record FunctionType : Type := mkFunction {
  __name__ : string;
  __qualname__ : string;
  __module__ : string;
  parameters : list (string * Annotation);
  return_annotation : ReturnAnnotation;
  __call__ : list Value -> Run Value
}.

(** ** The executor *)

(** A subclass of [_FunctionExecutor], given by its class attributes. *)
Record ExecutorClass : Type := mkExecutorClass {
  class_name : string;
  _ARG_FORMATS : list (string * ArgFormat);
  _FUNCTION : FunctionType;
  _RETURNED_VALUES : list (string * ArtifactKind);
  class_module : string
}.

(** The attributes of the base class itself: no arguments, a function
    that takes nothing and returns [None], no returned values. *)
Definition _FunctionExecutor : ExecutorClass :=
  {| class_name := "_FunctionExecutor";
     _ARG_FORMATS := [];
     _FUNCTION :=
       {| __name__ := "<lambda>"; __qualname__ := "_FunctionExecutor.<lambda>";
          __module__ := "tfx.components.base.decorators";
          parameters := []; return_annotation := NoReturnAnnotation;
          __call__ := fun args =>
            match args with [] => ret VNone | _ => raise TypeError end |};
     _RETURNED_VALUES := [];
     class_module := "tfx.components.base.decorators" |}.

Abbreviation ArtifactDict := (gmap string (list loc)).

(** One round of the first loop of [Do]: the value appended to
    [function_args] for [(name, arg_format)]. *)
Definition Do_argument (input_dict output_dict : ArtifactDict)
    (name : string) (arg_format : ArgFormat) : Run Value :=
  match arg_format with
  | Member INPUT_ARTIFACT =>
      l <- dict_getitem input_dict name ;; a <- list_getitem l 0 ;;
      ret (VArtifact a)
  | Member INPUT_URI =>
      l <- dict_getitem input_dict name ;; a <- list_getitem l 0 ;;
      getattr_uri a
  | Member OUTPUT_ARTIFACT =>
      l <- dict_getitem output_dict name ;; a <- list_getitem l 0 ;;
      ret (VArtifact a)
  | Member OUTPUT_URI =>
      l <- dict_getitem output_dict name ;; a <- list_getitem l 0 ;;
      getattr_uri a
  | Member ARTIFACT_VALUE =>
      l <- dict_getitem input_dict name ;; a <- list_getitem l 0 ;;
      getattr_value a
  | NotMember _ => raise (ValueError (Unknown_argument_format arg_format))
  end.

(** [for name, arg_format in self._ARG_FORMATS: ...], threading the list
    [function_args] that each round appends to. *)
Fixpoint Do_arguments (input_dict output_dict : ArtifactDict)
    (arg_formats : list (string * ArgFormat)) (function_args : list Value)
  : Run (list Value) :=
  match arg_formats with
  | [] => ret function_args
  | (name, arg_format) :: rest =>
      v <- Do_argument input_dict output_dict name arg_format ;;
      Do_arguments input_dict output_dict rest (function_args ++ [v])
  end.

(** [for name in self._RETURNED_VALUES: ...]. *)
Fixpoint Do_assign (output_dict : ArtifactDict)
    (returned_values : list (string * ArtifactKind))
    (outputs : list (Value * Value)) : Run unit :=
  match returned_values with
  | [] => ret tt
  | (name, _) :: rest =>
      match dict_get outputs name with
      | None =>
          logging_warning (Warning_missing_output name) ;;;
          Do_assign output_dict rest outputs
      | Some v =>
          l <- dict_getitem output_dict name ;; a <- list_getitem l 0 ;;
          setattr_value a v ;;;
          Do_assign output_dict rest outputs
      end
  end.

(** The part of [Do] after the call: normalise and distribute the
    returned value. *)
Definition Do_outputs (self : ExecutorClass) (output_dict : ArtifactDict)
    (outputs : Value) : Run Value :=
  let outputs := py_or outputs (VDict []) in
  match outputs with
  | VDict d =>
      Do_assign output_dict (_RETURNED_VALUES self) d ;;; ret VNone
  | _ =>
      logging_warning
        (Warning_not_a_dict (__name__ (_FUNCTION self)) outputs) ;;;
      ret VNone
  end.

(** [_FunctionExecutor.Do]. *)
Definition Do (self : ExecutorClass) (input_dict output_dict : ArtifactDict)
    (exec_properties : gmap string Value) : Run Value :=
  function_args <-
    Do_arguments input_dict output_dict (_ARG_FORMATS self) [] ;;
  outputs <- __call__ (_FUNCTION self) function_args ;;
  Do_outputs self output_dict outputs.

(** ** The decorator *)

(** [six.PY2]. The module is written with function annotations, which
    only Python 3 parses, so the flag is false wherever this code runs. *)
Definition six_PY2 : bool := false.

(** [s.split(sep)] for a one-character separator: every occurrence
    splits, and empty pieces are kept. *)
Fixpoint str_split (sep : ascii) (s : string) : list string :=
  match s with
  | EmptyString => [EmptyString]
  | String c rest =>
      match str_split sep rest with
      | [] => [EmptyString]
      | piece :: pieces =>
          if Ascii.eqb c sep then EmptyString :: piece :: pieces
          else String c piece :: pieces
      end
  end.

(** [x in l] for a list of strings. *)
Definition contains (x : string) (l : list string) : bool :=
  existsb (String.eqb x) l.

(** [d[key] = v] on an insertion-ordered dictionary. *)
Fixpoint dict_set {V} (d : list (string * V)) (key : string) (v : V)
  : list (string * V) :=
  match d with
  | [] => [(key, v)]
  | (k, w) :: rest =>
      if String.eqb k key then (k, v) :: rest else (k, w) :: dict_set rest key v
  end.

Definition primitive_kind (p : Primitive) : ArtifactKind :=
  match p with
  | Pint => KInteger
  | Pfloat => KFloat
  | PText => KString
  | Pbytes => KBytes
  end.

(** The four results of classification: inputs, outputs, argument
    formats and returned values. *)
Record Classification : Type := mkClassification {
  inputs : list (string * ArtifactKind);
  outputs : list (string * ArtifactKind);
  arg_formats : list (string * ArgFormat);
  returned_values : list (string * ArtifactKind)
}.

(** Modelled from the spec: the classification of one parameter, rules 1
    to 6 of the signature classifier ([function_parser] is not under
    [src/]). *)
Definition classify_parameter (c : Classification) (name : string)
    (annotation : Annotation) : Result Classification :=
  let add_input K role :=
    Ok {| inputs := dict_set (inputs c) name K; outputs := outputs c;
          arg_formats := arg_formats c ++ [(name, Member role)];
          returned_values := returned_values c |} in
  let add_output K role :=
    Ok {| inputs := inputs c; outputs := dict_set (outputs c) name K;
          arg_formats := arg_formats c ++ [(name, Member role)];
          returned_values := returned_values c |} in
  match annotation with
  | InputArtifact K => add_input K INPUT_ARTIFACT
  | OutputArtifact K => add_output K OUTPUT_ARTIFACT
  | InputUri K => add_input K INPUT_URI
  | OutputUri K => add_output K OUTPUT_URI
  | PrimitiveType p => add_input (primitive_kind p) ARTIFACT_VALUE
  | OtherAnnotation _ | NoAnnotation => Raise (SignatureError name)
  end.

Fixpoint classify_parameters (c : Classification)
    (params : list (string * Annotation)) : Result Classification :=
  match params with
  | [] => Ok c
  | (name, annotation) :: rest =>
      match classify_parameter c name annotation with
      | Ok c' => classify_parameters c' rest
      | Raise e => Raise e
      end
  end.

(** Modelled from the spec: the entries of an output dictionary
    declaration, each of a primitive type. *)
Fixpoint classify_returns (acc : list (string * ArtifactKind))
    (entries : list (string * Annotation))
  : Result (list (string * ArtifactKind)) :=
  match entries with
  | [] => Ok acc
  | (name, PrimitiveType p) :: rest =>
      classify_returns (dict_set acc name (primitive_kind p)) rest
  | (name, _) :: _ => Raise (SignatureError name)
  end.

(** Modelled from the spec: [parse_typehint_component_function] of
    [function_parser], which is not under [src/]: the parameters in
    declared order, then the return annotation. *)
Definition parse_typehint_component_function (func : FunctionType)
  : Result Classification :=
  match classify_parameters
          {| inputs := []; outputs := []; arg_formats := [];
             returned_values := [] |} (parameters func) with
  | Raise e => Raise e
  | Ok c =>
      match return_annotation func with
      | NoReturnAnnotation => Ok c
      | OutputDict entries =>
          match classify_returns [] entries with
          | Ok r =>
              Ok {| inputs := inputs c; outputs := outputs c;
                    arg_formats := arg_formats c; returned_values := r |}
          | Raise e => Raise e
          end
      | OtherReturnAnnotation _ => Raise (SignatureError "return")
      end
  end.

Record ChannelParameter : Type := mkChannelParameter {
  channel_type : ArtifactKind
}.

(** The generated subclass of [ComponentSpec]. *)
Record ComponentSpecClass : Type := mkComponentSpecClass {
  spec_class_name : string;
  INPUTS : list (string * ChannelParameter);
  OUTPUTS : list (string * ChannelParameter);
  PARAMETERS : list (string * Value)
}.

Record ExecutorClassSpec : Type := mkExecutorClassSpec {
  executor_class : ExecutorClass
}.

(** The generated subclass of [_SimpleComponent]. *)
Record ComponentClass : Type := mkComponentClass {
  component_name : string;
  SPEC_CLASS : ComponentSpecClass;
  EXECUTOR_SPEC : ExecutorClassSpec;
  component_module : string
}.

(** What a module attribute may hold. *)
Inductive ModuleAttribute : Type :=
| AttrExecutorClass (c : ExecutorClass)
| AttrComponentClass (c : ComponentClass)
| AttrFunction (f : FunctionType)
| AttrValue (v : Value).

(** [sys.modules]: the namespace of every loaded module, by name. *)
Abbreviation Modules := (gmap string (gmap string ModuleAttribute)).

Definition Compile (A : Type) : Type := M Modules A.

(** [sys.modules[name]]. *)
Definition sys_modules_getitem (name : string)
  : Compile (gmap string ModuleAttribute) :=
  fun mods => match mods !! name with
              | Some ns => (Ok ns, mods)
              | None => (Raise (KeyError name), mods)
              end.

(** [setattr(module, attr, x)] on the module loaded as [name]. *)
Definition setattr_module (name attr : string) (x : ModuleAttribute)
  : Compile unit :=
  fun mods => (Ok tt, alter (fun ns => <[attr := x]> ns) name mods).

(** [for key, artifact_type in d.items(): channels[key] = ChannelParameter(...)]. *)
Definition channel_parameters (d : list (string * ArtifactKind))
  : list (string * ChannelParameter) :=
  fold_left (fun channels '(key, artifact_type) =>
               dict_set channels key {| channel_type := artifact_type |})
            d [].

(** [component]. *)
Definition component (func : FunctionType) : Compile ComponentClass :=
  if six_PY2 then raise (EnvironmentError Python3_only)
  else if contains "<locals>" (str_split "." (__qualname__ func)) then
    raise (ValueError Not_at_module_level)
  else
    c <- lift_result (parse_typehint_component_function func) ;;
    let channel_inputs := channel_parameters (inputs c) in
    let channel_outputs := channel_parameters (outputs c) in
    let component_spec :=
      {| spec_class_name := __name__ func ++ "_Spec";
         INPUTS := channel_inputs;
         OUTPUTS := channel_outputs;
         PARAMETERS := [] |} in
    let executor_class :=
      {| class_name := __name__ func ++ "_Executor";
         _ARG_FORMATS := arg_formats c;
         _FUNCTION := func;
         _RETURNED_VALUES := returned_values c;
         class_module := __module__ func |} in
    module <- sys_modules_getitem (__module__ func) ;;
    setattr_module (__module__ func) (__name__ func ++ "_Executor")
                   (AttrExecutorClass executor_class) ;;;
    let executor_spec := {| executor_class := executor_class |} in
    ret {| component_name := __name__ func;
           SPEC_CLASS := component_spec;
           EXECUTOR_SPEC := executor_spec;
           component_module := __module__ func |}.

(** ** Python arithmetic used by the test components *)

(** [float(n)] for an integer: round to nearest even at precision 53;
    an integer beyond the largest float raises [OverflowError]. *)
Definition float_of_int (n : Z) : Result spec_float :=
  match binary_normalize 53 1024 n 0 false with
  | S754_infinity _ => Raise OverflowError
  | f => Ok f
  end.

(** An [int] or a [bool] as an integer. *)
Definition as_int (v : Value) : option Z :=
  match v with
  | VInt z => Some z
  | VBool b => Some (if b then 1 else 0)
  | _ => None
  end.

(** A number as a float, for mixed arithmetic. *)
Definition as_float (v : Value) : option (Result spec_float) :=
  match v with
  | VFloat f => Some (Ok f)
  | _ => match as_int v with
         | Some z => Some (float_of_int z)
         | None => None
         end
  end.

Definition float_binop (op : spec_float -> spec_float -> spec_float)
    (x y : Value) : Result Value :=
  match as_float x, as_float y with
  | Some (Ok f), Some (Ok g) => Ok (VFloat (op f g))
  | Some (Raise e), Some _ => Raise e
  | Some _, Some (Raise e) => Raise e
  | _, _ => Raise TypeError
  end.

(** [x + y]: numbers add, sequences of one type concatenate. *)
Definition py_add (x y : Value) : Result Value :=
  match as_int x, as_int y with
  | Some a, Some b => Ok (VInt (a + b))
  | _, _ =>
      match x, y with
      | VStr s, VStr t => Ok (VStr (s ++ t))
      | VBytes s, VBytes t => Ok (VBytes (s ++ t))
      | VList s, VList t => Ok (VList (s ++ t))
      | _, _ => float_binop (SFadd 53 1024) x y
      end
  end.

Definition repeat_list {A} (l : list A) (n : Z) : list A :=
  List.concat (List.repeat l (Z.to_nat n)).

Definition repeat_string (s : string) (n : Z) : string :=
  String.concat "" (List.repeat s (Z.to_nat n)).

(** [x * y]: numbers multiply, a sequence times an integer repeats. *)
Definition py_mul (x y : Value) : Result Value :=
  match as_int x, as_int y with
  | Some a, Some b => Ok (VInt (a * b))
  | Some n, None =>
      match y with
      | VStr s => Ok (VStr (repeat_string s n))
      | VBytes s => Ok (VBytes (repeat_list s n))
      | VList s => Ok (VList (repeat_list s n))
      | _ => float_binop (SFmul 53 1024) x y
      end
  | None, Some n =>
      match x with
      | VStr s => Ok (VStr (repeat_string s n))
      | VBytes s => Ok (VBytes (repeat_list s n))
      | VList s => Ok (VList (repeat_list s n))
      | _ => float_binop (SFmul 53 1024) x y
      end
  | None, None => float_binop (SFmul 53 1024) x y
  end.

(** [float(x)] for a number. Python also parses numerals out of strings;
    that parser is not modelled, and a string is reported as the
    [ValueError] of an unparsable numeral. *)
Definition py_float (x : Value) : Result Value :=
  match as_float x with
  | Some (Ok f) => Ok (VFloat f)
  | Some (Raise e) => Raise e
  | None =>
      match x with
      | VStr _ | VBytes _ =>
          Raise (ValueError (Message "could not convert string to float"))
      | _ => Raise TypeError
      end
  end.

(** ** The components of the test module *)

Definition test_module : string := "tfx.components.base.decorators_test".

(** [def injector() -> OutputDict(a=int, b=int, c=Text, d=bytes)]. *)
Definition injector : FunctionType :=
  {| __name__ := "injector";
     __qualname__ := "injector";
     __module__ := test_module;
     parameters := [];
     return_annotation :=
       OutputDict [("a", PrimitiveType Pint); ("b", PrimitiveType Pint);
                   ("c", PrimitiveType PText); ("d", PrimitiveType Pbytes)];
     __call__ := fun args =>
       match args with
       | [] =>
           ret (VDict [(VStr "a", VInt 10); (VStr "b", VInt 22);
                       (VStr "c", VStr "unicode");
                       (VStr "d", VBytes (list_byte_of_string "bytes"))])
       | _ => raise TypeError
       end |}.

(** [def simple_component(a: int, b: int, c: Text, d: bytes)
       -> OutputDict(e=float, f=float)]. *)
Definition simple_component : FunctionType :=
  {| __name__ := "simple_component";
     __qualname__ := "simple_component";
     __module__ := test_module;
     parameters :=
       [("a", PrimitiveType Pint); ("b", PrimitiveType Pint);
        ("c", PrimitiveType PText); ("d", PrimitiveType Pbytes)];
     return_annotation :=
       OutputDict [("e", PrimitiveType Pfloat); ("f", PrimitiveType Pfloat)];
     __call__ := fun args =>
       match args with
       | [a; b; c; d] =>
           s <- lift_result (py_add a b) ;;
           e <- lift_result (py_float s) ;;
           p <- lift_result (py_mul a b) ;;
           f <- lift_result (py_float p) ;;
           ret (VDict [(VStr "e", e); (VStr "f", f)])
       | _ => raise TypeError
       end |}.

(** The function of [testDefinitionInClosureFails], defined inside the
    test method. *)
Definition my_component : FunctionType :=
  {| __name__ := "my_component";
     __qualname__ :=
       "ComponentDecoratorTest.testDefinitionInClosureFails.<locals>.my_component";
     __module__ := test_module;
     parameters := [];
     return_annotation := NoReturnAnnotation;
     __call__ := fun args =>
       match args with [] => ret VNone | _ => raise TypeError end |}.

(** The integer a finite float stands for, when it stands for one. *)
Definition exact_integer (f : spec_float) : option Z :=
  match f with
  | S754_zero _ => Some 0
  | S754_finite s m e =>
      let n := if s then Z.neg m else Z.pos m in
      if Z.leb 0 e then Some (n * 2 ^ e)
      else if Z.eqb (n mod 2 ^ (- e)) 0 then Some (n / 2 ^ (- e))
      else None
  | _ => None
  end.

(** The floats 32.0 and 220.0: mantissa times two to the exponent. *)
Definition float_32 : spec_float := S754_finite false 4503599627370496 (-47).
Definition float_220 : spec_float := S754_finite false 7740561859543040 (-45).


(** The executor class that [component] generates for a function whose
    classification is [c]. *)
Definition generated_executor (func : FunctionType) (c : Classification)
  : ExecutorClass :=
  {| class_name := __name__ func ++ "_Executor";
     _ARG_FORMATS := arg_formats c;
     _FUNCTION := func;
     _RETURNED_VALUES := returned_values c;
     class_module := __module__ func |}.

(** ** Vocabulary of the statements *)

(** The first artifact filed under a name, when there is one. *)
Definition first_artifact (d : ArtifactDict) (name : string) : option loc :=
  match d !! name with
  | Some (a :: _) => Some a
  | _ => None
  end.

(** The exception of [d[name][0]] when there is no first artifact. *)
Definition lookup_error (d : ArtifactDict) (name : string) : Exn :=
  match d !! name with
  | None => KeyError name
  | Some _ => IndexError
  end.

Definition is_lookup_error (e : Exn) : bool :=
  match e with
  | KeyError _ | IndexError => true
  | _ => false
  end.

(** The dictionary an argument format reads from. *)
Definition dict_of_format (input_dict output_dict : ArtifactDict)
    (m : ArgFormats) : ArtifactDict :=
  match m with
  | INPUT_ARTIFACT | INPUT_URI | ARTIFACT_VALUE => input_dict
  | OUTPUT_ARTIFACT | OUTPUT_URI => output_dict
  end.

(** The argument an enumeration member selects from the first artifact. *)
Definition arg_value (m : ArgFormats) (h : Heap) (a : loc) : Value :=
  match m with
  | INPUT_ARTIFACT | OUTPUT_ARTIFACT => VArtifact a
  | INPUT_URI | OUTPUT_URI => VStr (uri (h a))
  | ARTIFACT_VALUE => value (h a)
  end.

(** How the specification resolves one [(name, role)] pair to a call
    argument, in a store [h]. *)
Inductive resolved (input_dict output_dict : ArtifactDict) (h : Heap)
  : string * ArgFormat -> Value -> Prop :=
| resolved_input_artifact name a :
    first_artifact input_dict name = Some a ->
    resolved input_dict output_dict h
             (name, Member INPUT_ARTIFACT) (VArtifact a)
| resolved_input_uri name a :
    first_artifact input_dict name = Some a ->
    resolved input_dict output_dict h
             (name, Member INPUT_URI) (VStr (uri (h a)))
| resolved_output_artifact name a :
    first_artifact output_dict name = Some a ->
    resolved input_dict output_dict h
             (name, Member OUTPUT_ARTIFACT) (VArtifact a)
| resolved_output_uri name a :
    first_artifact output_dict name = Some a ->
    resolved input_dict output_dict h
             (name, Member OUTPUT_URI) (VStr (uri (h a)))
| resolved_artifact_value name a :
    first_artifact input_dict name = Some a ->
    resolved input_dict output_dict h
             (name, Member ARTIFACT_VALUE) (value (h a)).

(** The names declared in [_RETURNED_VALUES], in iteration order. *)
Definition declared (self : ExecutorClass) : list string :=
  map fst (_RETURNED_VALUES self).

(** Is [name] a key of the returned dictionary? *)
Definition present (d : list (Value * Value)) (name : string) : bool :=
  match dict_get d name with Some _ => true | None => false end.


(** ** Concrete invocations *)

(** An artifact that carries nothing but a value. *)
Definition artifact_with (v : Value) : Artifact :=
  {| type_name := ""; uri := ""; value := v; properties := [] |}.

(** The executor class generated for [simple_component]. *)
Definition simple_component_Executor : ExecutorClass :=
  {| class_name := "simple_component_Executor";
     _ARG_FORMATS :=
       [("a", Member ARTIFACT_VALUE); ("b", Member ARTIFACT_VALUE);
        ("c", Member ARTIFACT_VALUE); ("d", Member ARTIFACT_VALUE)];
     _FUNCTION := simple_component;
     _RETURNED_VALUES := [("e", KFloat); ("f", KFloat)];
     class_module := test_module |}.

(** Six artifacts: the four inputs of [simple_component], holding what
    [injector] returns, and its two outputs, not yet written. *)
Definition simple_heap : Heap :=
  fun l =>
    match l with
    | 0%nat => artifact_with (VInt 10)
    | 1%nat => artifact_with (VInt 22)
    | 2%nat => artifact_with (VStr "unicode")
    | 3%nat => artifact_with (VBytes (list_byte_of_string "bytes"))
    | _ => artifact_with VNone
    end.

Definition simple_state : State := {| heap := simple_heap; log := [] |}.

Definition simple_inputs : ArtifactDict :=
  <["a" := [0%nat]]> (<["b" := [1%nat]]> (<["c" := [2%nat]]>
    (<["d" := [3%nat]]> ∅))).

Definition simple_outputs : ArtifactDict :=
  <["e" := [4%nat]]> (<["f" := [5%nat]]> ∅).

(** A module table in which the test module is loaded and empty. *)
Definition test_modules : Modules := <[test_module := ∅]> ∅.

(** The warnings of the assignment loop for the declared names that the
    returned dictionary lacks, in iteration order. *)
Definition missing_warnings (names : list string) (d : list (Value * Value))
  : list LogRecord :=
  map Warning_missing_output (List.filter (fun n => negb (present d n)) names).

(** Two artifacts that differ at most in their value. *)
Definition same_but_value (x y : Artifact) : Prop :=
  type_name x = type_name y /\ uri x = uri y /\ properties x = properties y.

(** A store of value-less artifacts and an empty log. *)
Definition empty_state : State :=
  {| heap := fun _ => artifact_with VNone; log := [] |}.

(** [def returns_zero(): return 0], and its executor class. *)
Definition returns_zero : FunctionType :=
  {| __name__ := "returns_zero";
     __qualname__ := "returns_zero";
     __module__ := test_module;
     parameters := [];
     return_annotation := NoReturnAnnotation;
     __call__ := fun args =>
       match args with [] => ret (VInt 0) | _ => raise TypeError end |}.

Definition returns_zero_Executor : ExecutorClass :=
  {| class_name := "returns_zero_Executor";
     _ARG_FORMATS := [];
     _FUNCTION := returns_zero;
     _RETURNED_VALUES := [];
     class_module := test_module |}.

(** [def returns_e() -> OutputDict(e=int): return {'e': 1}], and its
    executor class. *)
Definition returns_e : FunctionType :=
  {| __name__ := "returns_e";
     __qualname__ := "returns_e";
     __module__ := test_module;
     parameters := [];
     return_annotation := OutputDict [("e", PrimitiveType Pint)];
     __call__ := fun args =>
       match args with
       | [] => ret (VDict [(VStr "e", VInt 1)])
       | _ => raise TypeError
       end |}.

Definition returns_e_Executor : ExecutorClass :=
  {| class_name := "returns_e_Executor";
     _ARG_FORMATS := [];
     _FUNCTION := returns_e;
     _RETURNED_VALUES := [("e", KInteger)];
     class_module := test_module |}.

(** [def returns_e_only() -> OutputDict(e=int, f=int): return {'e': 1}],
    and its executor class: the declared name [f] is never returned. *)
Definition returns_e_only : FunctionType :=
  {| __name__ := "returns_e_only";
     __qualname__ := "returns_e_only";
     __module__ := test_module;
     parameters := [];
     return_annotation :=
       OutputDict [("e", PrimitiveType Pint); ("f", PrimitiveType Pint)];
     __call__ := fun args =>
       match args with
       | [] => ret (VDict [(VStr "e", VInt 1)])
       | _ => raise TypeError
       end |}.

Definition returns_e_only_Executor : ExecutorClass :=
  {| class_name := "returns_e_only_Executor";
     _ARG_FORMATS := [];
     _FUNCTION := returns_e_only;
     _RETURNED_VALUES := [("e", KInteger); ("f", KInteger)];
     class_module := test_module |}.

(** Resolving an executor class from a module name and a class name, as
    a worker does that holds only the reference:
    [getattr(sys.modules[module], name)]. *)
Definition resolve_executor (mods : Modules) (module name : string)
  : option ExecutorClass :=
  match mods !! module with
  | Some ns =>
      match ns !! name with
      | Some (AttrExecutorClass c) => Some c
      | _ => None
      end
  | None => None
  end.

(** A function defined in the body of a class nested in another class:
    [class Outer: class Inner: def my_component(): return None]. *)
Definition nested_class_component : FunctionType :=
  {| __name__ := "my_component";
     __qualname__ := "Outer.Inner.my_component";
     __module__ := test_module;
     parameters := [];
     return_annotation := NoReturnAnnotation;
     __call__ := fun args =>
       match args with [] => ret VNone | _ => raise TypeError end |}.

(** Is an argument format one of the five members of the enumeration? *)
Definition is_member (fmt : ArgFormat) : bool :=
  match fmt with Member _ => true | NotMember _ => false end.

(** An executor class whose second argument format is not a member of
    the enumeration. *)
Definition unknown_format_Executor : ExecutorClass :=
  {| class_name := "unknown_format_Executor";
     _ARG_FORMATS := [("a", Member INPUT_ARTIFACT); ("x", NotMember (VInt 6))];
     _FUNCTION := returns_zero;
     _RETURNED_VALUES := [];
     class_module := test_module |}.

(** An input dictionary that files, under [a], the very artifact that
    [simple_outputs] files under [e]. *)
Definition aliased_inputs : ArtifactDict := <["a" := [4%nat]]> ∅.

(** An output dictionary with an entry for [e] and none for [f]. *)
Definition outputs_e_only : ArtifactDict := <["e" := [4%nat]]> ∅.

(** Every name of the argument formats has a first artifact in the
    dictionary its format reads from. *)
Definition arguments_served (input_dict output_dict : ArtifactDict)
    (afs : list (string * ArgFormat)) : Prop :=
  Forall (fun p =>
            match snd p with
            | Member m =>
                is_Some (first_artifact
                           (dict_of_format input_dict output_dict m) (fst p))
            | NotMember _ => True
            end) afs.

(** Every declared returned value has a first artifact in
    [output_dict]. *)
Definition returned_values_served (output_dict : ArtifactDict)
    (self : ExecutorClass) : Prop :=
  forall n, In n (declared self) -> is_Some (first_artifact output_dict n).

(** An artifact dictionary with every sequence cut down to its first
    element. *)
Definition firsts_only (d : ArtifactDict) : ArtifactDict := take 1 <$> d.

(** The executor class generated for [injector]. *)
Definition injector_Executor : ExecutorClass :=
  {| class_name := "injector_Executor";
     _ARG_FORMATS := [];
     _FUNCTION := injector;
     _RETURNED_VALUES :=
       [("a", KInteger); ("b", KInteger); ("c", KString); ("d", KBytes)];
     class_module := test_module |}.

(** ** Vocabulary of the further properties *)

(** The value that the assignment loop, run over [rv] to its end, leaves
    in artifact [l]: that of the last declared name which the returned
    dictionary holds and whose first output artifact is [l]. *)
Fixpoint last_written (output_dict : ArtifactDict) (d : list (Value * Value))
    (rv : list (string * ArtifactKind)) (l : loc) : option Value :=
  match rv with
  | [] => None
  | (name, _) :: rest =>
      match last_written output_dict d rest l with
      | Some w => Some w
      | None =>
          match dict_get d name with
          | Some w =>
              if bool_decide (first_artifact output_dict name = Some l)
              then Some w else None
          | None => None
          end
      end
  end.

(** The artifact [x] after the assignment loop has run over it. *)
Definition after_writes (w : option Value) (x : Artifact) : Artifact :=
  match w with
  | Some v => set_value x v
  | None => x
  end.

(** [getattr(sys.modules[module], attr)], when both exist. *)
Definition getattr_module (mods : Modules) (module attr : string)
  : option ModuleAttribute :=
  match mods !! module with
  | Some ns => ns !! attr
  | None => None
  end.

(** [ChannelParameter(type=artifact_type)] under its key. *)
Definition channel_of (p : string * ArtifactKind) : string * ChannelParameter :=
  (fst p, {| channel_type := snd p |}).

(** An output dictionary with an entry for [a] and none for the other
    outputs of [injector]. *)
Definition outputs_a_only : ArtifactDict := <["a" := [0%nat]]> ∅.

(** A state whose first input artifact holds an integer beyond the
    largest float. *)
Definition huge_state : State :=
  {| heap := fun l =>
       match l with
       | 0%nat => artifact_with (VInt (2 ^ 1024))
       | _ => artifact_with (VInt 1)
       end;
     log := [] |}.




(** ** Basic facts about the monad and the lookups *)

Lemma bind_ok {S A B} (m : M S A) (k : A -> M S B) s a s' :
  m s = (Ok a, s') -> bind m k s = k a s'.
Proof. intros H. unfold bind. now rewrite H. Qed.

Lemma bind_raise {S A B} (m : M S A) (k : A -> M S B) s e s' :
  m s = (Raise e, s') -> bind m k s = (Raise e, s').
Proof. intros H. unfold bind. now rewrite H. Qed.

(** [d[name][0]] yields the first artifact or raises the lookup error,
    in either case leaving the state alone. *)
Lemma getitem_first {S B} (d : ArtifactDict) name (k : loc -> M S B) s :
  (l <- dict_getitem d name ;; a <- list_getitem l 0 ;; k a) s =
  match first_artifact d name with
  | Some a => k a s
  | None => (Raise (lookup_error d name), s)
  end.
Proof.
  unfold first_artifact, lookup_error, dict_getitem, list_getitem, bind.
  destruct (d !! name) as [[|a l]|]; reflexivity.
Qed.

Lemma lookup_error_is_lookup_error d name :
  is_lookup_error (lookup_error d name) = true.
Proof. unfold lookup_error. now destruct (d !! name). Qed.

Lemma resolved_iff input_dict output_dict h name fmt v :
  resolved input_dict output_dict h (name, fmt) v <->
  exists m a, fmt = Member m /\
    first_artifact (dict_of_format input_dict output_dict m) name = Some a /\
    v = arg_value m h a.
Proof.
  split.
  - inversion 1; subst; eexists _, _; (split; [reflexivity|]); split; eauto.
  - intros (m & a & -> & Hfirst & ->).
    destruct m; simpl in *; now constructor.
Qed.

(** One round of the argument loop, in closed form. *)
Lemma Do_argument_eq input_dict output_dict name fmt st :
  Do_argument input_dict output_dict name fmt st =
  match fmt with
  | Member m =>
      match first_artifact (dict_of_format input_dict output_dict m) name with
      | Some a => (Ok (arg_value m (heap st) a), st)
      | None =>
          (Raise (lookup_error (dict_of_format input_dict output_dict m) name),
           st)
      end
  | NotMember _ => (Raise (ValueError (Unknown_argument_format fmt)), st)
  end.
Proof.
  destruct fmt as [m|v]; [|reflexivity].
  destruct m; simpl; rewrite getitem_first;
    now destruct (first_artifact _ name).
Qed.

Lemma Do_argument_state input_dict output_dict name fmt st :
  snd (Do_argument input_dict output_dict name fmt st) = st.
Proof.
  rewrite Do_argument_eq. destruct fmt as [m|v]; [|reflexivity].
  now destruct (first_artifact _ name).
Qed.

Lemma Do_argument_ok input_dict output_dict name fmt st v s :
  Do_argument input_dict output_dict name fmt st = (Ok v, s) <->
  s = st /\ resolved input_dict output_dict (heap st) (name, fmt) v.
Proof.
  rewrite Do_argument_eq, resolved_iff. split.
  - destruct fmt as [m|w]; [|discriminate].
    destruct (first_artifact _ name) as [a|] eqn:Hfirst; [|discriminate].
    intros [= <- <-]. split; [reflexivity|]. now exists m, a.
  - intros (-> & m & a & -> & Hfirst & ->). now rewrite Hfirst.
Qed.

(** The argument loop appends the resolved arguments in order. *)
Lemma Do_arguments_resolved input_dict output_dict st afs args :
  Forall2 (resolved input_dict output_dict (heap st)) afs args ->
  forall acc,
    Do_arguments input_dict output_dict afs acc st = (Ok (acc ++ args), st).
Proof.
  induction 1 as [|[name fmt] v afs args Hv _ IH]; intros acc; simpl.
  - now rewrite app_nil_r.
  - rewrite (bind_ok _ _ st v st) by (apply Do_argument_ok; auto).
    rewrite IH. now rewrite <- app_assoc.
Qed.

(** The loop never touches the state. *)
Lemma Do_arguments_state input_dict output_dict afs :
  forall acc st,
    snd (Do_arguments input_dict output_dict afs acc st) = st.
Proof.
  induction afs as [|[name fmt] afs IH]; intros acc st; simpl; [reflexivity|].
  unfold bind.
  pose proof (Do_argument_state input_dict output_dict name fmt st) as Hst.
  destruct (Do_argument input_dict output_dict name fmt st) as [[v|e] s];
    simpl in Hst; subst s; [apply IH | reflexivity].
Qed.

(** When the loop returns, it returns resolved arguments. *)
Lemma Do_arguments_ok_inv input_dict output_dict afs :
  forall acc st r s,
    Do_arguments input_dict output_dict afs acc st = (Ok r, s) ->
    s = st /\ exists args, r = acc ++ args /\
      Forall2 (resolved input_dict output_dict (heap st)) afs args.
Proof.
  induction afs as [|[name fmt] afs IH]; intros acc st r s; simpl.
  - intros [= <- <-]. split; [reflexivity|]. exists [].
    split; [now rewrite app_nil_r | constructor].
  - unfold bind.
    destruct (Do_argument input_dict output_dict name fmt st) as [[v|e] s1]
      eqn:Harg; [|discriminate].
    apply Do_argument_ok in Harg as [-> Hv].
    intros Hrest. apply IH in Hrest as (-> & args & -> & Hargs).
    split; [reflexivity|]. exists (v :: args).
    split; [now rewrite <- app_assoc | now constructor].
Qed.

(** When the loop raises, some entry failed after all earlier entries
    were resolved. *)
Lemma Do_arguments_raise_inv input_dict output_dict afs :
  forall acc st e s,
    Do_arguments input_dict output_dict afs acc st = (Raise e, s) ->
    s = st /\ exists pre name fmt post args,
      afs = pre ++ (name, fmt) :: post /\
      Forall2 (resolved input_dict output_dict (heap st)) pre args /\
      Do_argument input_dict output_dict name fmt st = (Raise e, st).
Proof.
  induction afs as [|[name fmt] afs IH]; intros acc st e s; simpl;
    [discriminate|].
  unfold bind.
  destruct (Do_argument input_dict output_dict name fmt st) as [[v|e'] s1]
    eqn:Harg.
  - apply Do_argument_ok in Harg as [-> Hv].
    intros Hrest.
    apply IH in Hrest as (-> & pre & n & f & post & args & -> & Hpre & Hn).
    split; [reflexivity|].
    exists ((name, fmt) :: pre), n, f, post, (v :: args).
    split; [reflexivity|]. split; [now constructor | assumption].
  - pose proof (Do_argument_state input_dict output_dict name fmt st) as Hst.
    rewrite Harg in Hst. simpl in Hst. subst s1.
    intros [= <- <-]. split; [reflexivity|].
    exists [], name, fmt, afs, []. repeat split; [constructor | assumption].
Qed.

(** Entries that resolve are skipped over. *)
Lemma Do_arguments_app input_dict output_dict st pre args rest acc :
  Forall2 (resolved input_dict output_dict (heap st)) pre args ->
  Do_arguments input_dict output_dict (pre ++ rest) acc st =
  Do_arguments input_dict output_dict rest (acc ++ args) st.
Proof.
  intros H. revert acc.
  induction H as [|[name fmt] v pre args Hv _ IH]; intros acc; simpl.
  - now rewrite app_nil_r.
  - rewrite (bind_ok _ _ st v st) by (apply Do_argument_ok; auto).
    rewrite IH. now rewrite <- app_assoc.
Qed.

(** [Do] once the arguments are known. *)
Lemma Do_after_arguments self input_dict output_dict exec_properties st args :
  Do_arguments input_dict output_dict (_ARG_FORMATS self) [] st
    = (Ok args, st) ->
  Do self input_dict output_dict exec_properties st =
  (outputs <- __call__ (_FUNCTION self) args ;;
   Do_outputs self output_dict outputs) st.
Proof. intros H. unfold Do. now rewrite (bind_ok _ _ _ _ _ H). Qed.

(** [Do] when the argument loop raises: the function is not called. *)
Lemma Do_arguments_raise self input_dict output_dict exec_properties st e :
  Do_arguments input_dict output_dict (_ARG_FORMATS self) [] st
    = (Raise e, st) ->
  Do self input_dict output_dict exec_properties st = (Raise e, st).
Proof. intros H. unfold Do. now rewrite (bind_raise _ _ _ _ _ H). Qed.

(** ** Argument resolution *)

(** C1: the call arguments are resolved from the stored argument formats
    in declared order ([input_dict[name][0]] for an input artifact, its
    [uri] for an input uri, [output_dict[name][0]] for an output
    artifact, its [uri] for an output uri, the [value] of
    [input_dict[name][0]] for an artifact value), and the wrapped function
    is called positionally with exactly these arguments in that order. *)
Theorem Do_calls_function_with_resolved_arguments
    self input_dict output_dict exec_properties st args :
  (Forall2 (resolved input_dict output_dict (heap st))
           (_ARG_FORMATS self) args <->
   Do_arguments input_dict output_dict (_ARG_FORMATS self) [] st
     = (Ok args, st)) /\
  (Forall2 (resolved input_dict output_dict (heap st))
           (_ARG_FORMATS self) args ->
   Do self input_dict output_dict exec_properties st =
   (outputs <- __call__ (_FUNCTION self) args ;;
    Do_outputs self output_dict outputs) st).
Proof.
  assert (Hloop :
    Forall2 (resolved input_dict output_dict (heap st))
            (_ARG_FORMATS self) args ->
    Do_arguments input_dict output_dict (_ARG_FORMATS self) [] st
      = (Ok args, st)).
  { intros H. now rewrite (Do_arguments_resolved _ _ _ _ _ H). }
  split; [split; [exact Hloop|] |].
  - intros H. apply Do_arguments_ok_inv in H as (_ & args' & Heq & Hargs).
    simpl in Heq. now subst args'.
  - intros H. apply Do_after_arguments. auto.
Qed.

Lemma Do_calls_function_with_resolved_arguments_witness :
  Forall2 (resolved simple_inputs simple_outputs (heap simple_state))
          (_ARG_FORMATS simple_component_Executor)
          [VInt 10; VInt 22; VStr "unicode";
           VBytes (list_byte_of_string "bytes")] /\
  Do simple_component_Executor simple_inputs simple_outputs ∅ simple_state =
  (outputs <- __call__ simple_component
                [VInt 10; VInt 22; VStr "unicode";
                 VBytes (list_byte_of_string "bytes")] ;;
   Do_outputs simple_component_Executor simple_outputs outputs) simple_state.
Proof.
  assert (H : Forall2 (resolved simple_inputs simple_outputs (heap simple_state))
          (_ARG_FORMATS simple_component_Executor)
          [VInt 10; VInt 22; VStr "unicode";
           VBytes (list_byte_of_string "bytes")]).
  { repeat constructor.
    - exact (resolved_artifact_value simple_inputs simple_outputs simple_heap "a" 0%nat eq_refl).
    - exact (resolved_artifact_value simple_inputs simple_outputs simple_heap "b" 1%nat eq_refl).
    - exact (resolved_artifact_value simple_inputs simple_outputs simple_heap "c" 2%nat eq_refl).
    - exact (resolved_artifact_value simple_inputs simple_outputs simple_heap "d" 3%nat eq_refl). }
  split; [exact H|].
  exact (proj2 (Do_calls_function_with_resolved_arguments
                  simple_component_Executor simple_inputs simple_outputs ∅
                  simple_state _) H).
Defined.

(** ** The assignment loop *)

(** One round of the assignment loop, in closed form. *)
Lemma Do_assign_step output_dict name K rest d st :
  Do_assign output_dict ((name, K) :: rest) d st =
  match dict_get d name with
  | None =>
      Do_assign output_dict rest d
        {| heap := heap st; log := log st ++ [Warning_missing_output name] |}
  | Some v =>
      match first_artifact output_dict name with
      | Some a =>
          Do_assign output_dict rest d
            {| heap := heap_set_value (heap st) a v; log := log st |}
      | None => (Raise (lookup_error output_dict name), st)
      end
  end.
Proof.
  simpl. destruct (dict_get d name) as [v|]; [|reflexivity].
  rewrite getitem_first. now destruct (first_artifact output_dict name).
Qed.

Lemma same_but_value_refl x : same_but_value x x.
Proof. now repeat split. Qed.

Lemma same_but_value_trans x y z :
  same_but_value x y -> same_but_value y z -> same_but_value x z.
Proof.
  intros (? & ? & ?) (? & ? & ?). repeat split; etransitivity; eauto.
Qed.

Lemma heap_set_value_same h a v l :
  same_but_value (heap_set_value h a v l) (h l).
Proof.
  unfold heap_set_value. destruct (Nat.eqb l a) eqn:E.
  - apply Nat.eqb_eq in E. subst. now repeat split.
  - apply same_but_value_refl.
Qed.

Lemma heap_set_value_eq h a v : heap_set_value h a v a = set_value (h a) v.
Proof. unfold heap_set_value. now rewrite Nat.eqb_refl. Qed.

Lemma heap_set_value_ne h a v l : l <> a -> heap_set_value h a v l = h l.
Proof.
  intros Hne. unfold heap_set_value.
  destruct (Nat.eqb l a) eqn:E; [|reflexivity].
  apply Nat.eqb_eq in E. contradiction.
Qed.

(** The loop writes nothing but value slots. *)
Lemma Do_assign_fields output_dict d rv :
  forall st r st',
    Do_assign output_dict rv d st = (r, st') ->
    forall l, same_but_value (heap st' l) (heap st l).
Proof.
  induction rv as [|[name K] rv IH]; intros st r st'.
  - intros [= <- <-] l. apply same_but_value_refl.
  - rewrite Do_assign_step.
    destruct (dict_get d name) as [v|].
    + destruct (first_artifact output_dict name) as [a|].
      * intros H l. eapply same_but_value_trans; [eapply IH, H|].
        apply heap_set_value_same.
      * intros [= <- <-] l. apply same_but_value_refl.
    + intros H l. apply (IH _ _ _ H l).
Qed.

(** An artifact that is not the first output artifact of a declared name
    present in the returned dictionary is left as it was. *)
Lemma Do_assign_frame output_dict d rv :
  forall st r st',
    Do_assign output_dict rv d st = (r, st') ->
    forall l,
      (forall n, In n (map fst rv) -> present d n = true ->
                 first_artifact output_dict n <> Some l) ->
      heap st' l = heap st l.
Proof.
  induction rv as [|[name K] rv IH]; intros st r st'.
  - now intros [= <- <-].
  - rewrite Do_assign_step. intros H l Hl.
    assert (Hrest : forall n, In n (map fst rv) -> present d n = true ->
                              first_artifact output_dict n <> Some l)
      by (intros n Hn; apply Hl; now right).
    pose proof (Hl name (or_introl eq_refl)) as Hname.
    unfold present in Hname.
    destruct (dict_get d name) as [v|].
    + destruct (first_artifact output_dict name) as [a|].
      * rewrite (IH _ _ _ H l Hrest). simpl.
        apply heap_set_value_ne. intros ->. now apply Hname.
      * now injection H as <- <-.
    + apply (IH _ _ _ H l Hrest).
Qed.

(** The loop logs missing-output warnings and nothing else. *)
Lemma Do_assign_log output_dict d rv :
  forall st r st',
    Do_assign output_dict rv d st = (r, st') ->
    exists names,
      log st' = log st ++ map Warning_missing_output names /\
      (r = Ok tt -> map Warning_missing_output names
                    = missing_warnings (map fst rv) d).
Proof.
  induction rv as [|[name K] rv IH]; intros st r st'.
  - intros [= <- <-]. exists []. now rewrite app_nil_r.
  - rewrite Do_assign_step. unfold missing_warnings, present. simpl.
    destruct (dict_get d name) as [v|]; simpl.
    + destruct (first_artifact output_dict name) as [a|].
      * intros H. apply IH in H as (names & Hlog & Hok). now exists names.
      * intros [= <- <-]. exists []. split; [now rewrite app_nil_r|].
        discriminate.
    + intros H. apply IH in H as (names & Hlog & Hok). simpl in Hlog.
      exists (name :: names). split.
      * rewrite Hlog, <- app_assoc. reflexivity.
      * intros Hr. simpl. f_equal. now apply Hok.
Qed.

(** The loop completes when every declared name that the dictionary
    holds has a first output artifact. *)
Lemma Do_assign_ok output_dict d rv :
  (forall n, In n (map fst rv) -> present d n = true ->
             is_Some (first_artifact output_dict n)) ->
  forall st, exists st', Do_assign output_dict rv d st = (Ok tt, st').
Proof.
  induction rv as [|[name K] rv IH]; intros Hwf st.
  - now exists st.
  - rewrite Do_assign_step.
    assert (Hrest : forall n, In n (map fst rv) -> present d n = true ->
                              is_Some (first_artifact output_dict n))
      by (intros n Hn; apply Hwf; now right).
    pose proof (Hwf name (or_introl eq_refl)) as Hname.
    unfold present in Hname.
    destruct (dict_get d name) as [v|].
    + destruct (Hname eq_refl) as [a ->]. apply (IH Hrest).
    + apply (IH Hrest).
Qed.

(** The loop raises the lookup error of the first declared name that the
    dictionary holds and [output_dict] cannot serve. *)
Lemma Do_assign_raise output_dict d pre name K post :
  (forall n, In n (map fst pre) -> present d n = true ->
             is_Some (first_artifact output_dict n)) ->
  present d name = true ->
  first_artifact output_dict name = None ->
  forall st, exists st',
    Do_assign output_dict (pre ++ (name, K) :: post) d st
      = (Raise (lookup_error output_dict name), st').
Proof.
  intros Hpre Hname Hnone. induction pre as [|[n K'] pre IH]; intros st.
  - simpl app. rewrite Do_assign_step. unfold present in Hname.
    destruct (dict_get d name); [|discriminate].
    rewrite Hnone. now exists st.
  - simpl app. rewrite Do_assign_step.
    assert (Hrest : forall m, In m (map fst pre) -> present d m = true ->
                              is_Some (first_artifact output_dict m))
      by (intros m Hm; apply Hpre; now right).
    pose proof (Hpre n (or_introl eq_refl)) as Hn. unfold present in Hn.
    destruct (dict_get d n) as [v|].
    + destruct (Hn eq_refl) as [a ->]. apply (IH Hrest).
    + apply (IH Hrest).
Qed.

Lemma set_value_set_value x v w : set_value (set_value x v) w = set_value x w.
Proof. reflexivity. Qed.

(** Once an artifact holds [v], it holds [v] at the end if every later
    write to it writes [v] again. *)
Lemma Do_assign_stable output_dict d l v x rv :
  (forall n w, In n (map fst rv) -> dict_get d n = Some w ->
               first_artifact output_dict n = Some l -> w = v) ->
  forall st r st',
    Do_assign output_dict rv d st = (r, st') ->
    heap st l = set_value x v ->
    heap st' l = set_value x v.
Proof.
  induction rv as [|[name K] rv IH]; intros Hsame st r st'.
  - now intros [= <- <-].
  - rewrite Do_assign_step. intros H Hl.
    assert (Hrest : forall n w, In n (map fst rv) -> dict_get d n = Some w ->
                      first_artifact output_dict n = Some l -> w = v)
      by (intros n w Hn; apply Hsame; now right).
    pose proof (Hsame name) as Hname.
    destruct (dict_get d name) as [w|].
    + destruct (first_artifact output_dict name) as [a|].
      * apply (IH Hrest _ _ _ H). simpl.
        destruct (Nat.eq_dec l a) as [->|Hne].
        -- rewrite heap_set_value_eq, Hl.
           rewrite (Hname w (or_introl eq_refl) eq_refl eq_refl).
           reflexivity.
        -- now rewrite heap_set_value_ne.
      * now injection H as <- <-.
    + apply (IH Hrest _ _ _ H). exact Hl.
Qed.

(** A declared name that the dictionary holds ends up written into its
    first output artifact, when no other declared name shares that
    artifact. *)
Lemma Do_assign_written output_dict d name v l rv :
  In name (map fst rv) ->
  dict_get d name = Some v ->
  first_artifact output_dict name = Some l ->
  (forall n, In n (map fst rv) -> first_artifact output_dict n = Some l ->
             n = name) ->
  forall st st',
    Do_assign output_dict rv d st = (Ok tt, st') ->
    heap st' l = set_value (heap st l) v.
Proof.
  intros Hin Hv Hl. induction rv as [|[n K] rv IH]; intros Hinj st st';
    [contradiction|].
  rewrite Do_assign_step. intros H.
  assert (Hrest : forall m, In m (map fst rv) ->
                    first_artifact output_dict m = Some l -> m = name)
    by (intros m Hm; apply Hinj; now right).
  assert (Hsame : forall m w, In m (map fst rv) -> dict_get d m = Some w ->
                    first_artifact output_dict m = Some l -> w = v).
  { intros m w Hm Hw Hml. apply Hrest in Hml; [|exact Hm]. subst m.
    congruence. }
  destruct (String.eqb_spec n name) as [->|Hne].
  - rewrite Hv, Hl in H.
    apply (Do_assign_stable _ _ _ _ _ _ Hsame _ _ _ H). simpl.
    apply heap_set_value_eq.
  - destruct Hin as [Heq|Hin]; [simpl in Heq; contradiction|].
    pose proof (Hinj n (or_introl eq_refl)) as Hn.
    destruct (dict_get d n) as [w|].
    + destruct (first_artifact output_dict n) as [a|]; [|discriminate].
      rewrite (IH Hin Hrest _ _ H). simpl.
      rewrite heap_set_value_ne; [reflexivity|].
      intros ->. now apply Hne, Hn.
    + apply (IH Hin Hrest _ _ H).
Qed.

(** ** Normalising the returned value *)

Lemma Do_outputs_dict self output_dict d st :
  Do_outputs self output_dict (VDict d) st =
  (Do_assign output_dict (_RETURNED_VALUES self) d ;;; ret VNone) st.
Proof. now destruct d. Qed.

Lemma Do_outputs_falsy self output_dict v st :
  truthy v = false ->
  Do_outputs self output_dict v st = Do_outputs self output_dict (VDict []) st.
Proof. intros H. unfold Do_outputs, py_or. now rewrite H. Qed.

Lemma Do_outputs_not_dict self output_dict v st :
  truthy v = true -> isinstance_dict v = false ->
  Do_outputs self output_dict v st =
  (Ok VNone,
   {| heap := heap st;
      log := log st ++ [Warning_not_a_dict (__name__ (_FUNCTION self)) v] |}).
Proof.
  intros Ht Hd. unfold Do_outputs, py_or. rewrite Ht.
  now destruct v.
Qed.

Lemma missing_warnings_empty names :
  missing_warnings names [] = map Warning_missing_output names.
Proof.
  unfold missing_warnings. f_equal.
  induction names as [|n names IH]; [reflexivity|].
  cbn [List.filter]. change (negb (present [] n)) with true. cbv iota.
  now f_equal.
Qed.

(** On an empty dictionary the loop only warns, once per declared name. *)
Lemma Do_assign_empty output_dict rv :
  forall st,
    Do_assign output_dict rv [] st =
    (Ok tt, {| heap := heap st;
               log := log st ++ map Warning_missing_output (map fst rv) |}).
Proof.
  induction rv as [|[name K] rv IH]; intros [h lg].
  - simpl. now rewrite app_nil_r.
  - rewrite Do_assign_step. simpl dict_get. cbv iota. rewrite IH. simpl.
    now rewrite <- app_assoc.
Qed.

Lemma Do_outputs_empty self output_dict st :
  Do_outputs self output_dict (VDict []) st =
  (Ok VNone, {| heap := heap st;
                log := log st ++ map Warning_missing_output (declared self) |}).
Proof.
  rewrite Do_outputs_dict.
  now rewrite (bind_ok _ _ _ _ _ (Do_assign_empty _ _ _)).
Qed.

(** [Do] from the state in which the wrapped function returned. *)
Lemma Do_after_call self input_dict output_dict exec_properties
    st args st1 v st2 :
  Do_arguments input_dict output_dict (_ARG_FORMATS self) [] st
    = (Ok args, st1) ->
  __call__ (_FUNCTION self) args st1 = (Ok v, st2) ->
  Do self input_dict output_dict exec_properties st =
  Do_outputs self output_dict v st2.
Proof.
  intros Hargs Hcall. unfold Do.
  rewrite (bind_ok _ _ _ _ _ Hargs). now rewrite (bind_ok _ _ _ _ _ Hcall).
Qed.

(** The state [Do_outputs] ends in extends the log it started from. *)
Lemma Do_outputs_log self output_dict v st r st' :
  Do_outputs self output_dict v st = (r, st') ->
  exists delta,
    log st' = log st ++ delta /\
    ((exists n w, In (Warning_not_a_dict n w) delta) <->
     truthy v = true /\ isinstance_dict v = false).
Proof.
  destruct (truthy v) eqn:Ht.
  - destruct (isinstance_dict v) eqn:Hd.
    + destruct v; try discriminate.
      rewrite Do_outputs_dict. unfold bind.
      destruct (Do_assign output_dict (_RETURNED_VALUES self) d st)
        as [r0 s0] eqn:Hassign.
      apply Do_assign_log in Hassign as (names & Hlog & _).
      intros H.
      assert (st' = s0) as -> by (destruct r0; now injection H).
      exists (map Warning_missing_output names). split; [exact Hlog|].
      split; [|intros [_ ?]; discriminate].
      intros (n & w & Hin). apply in_map_iff in Hin as (? & ? & _).
      discriminate.
    + rewrite Do_outputs_not_dict by assumption. intros [= <- <-]. simpl.
      eexists. split; [reflexivity|]. split; [auto|].
      intros _. eexists _, _. now left.
  - rewrite Do_outputs_falsy, Do_outputs_empty by assumption.
    intros [= <- <-]. simpl. eexists. split; [reflexivity|].
    split; [|intros [? _]; discriminate].
    intros (n & w & Hin). apply in_map_iff in Hin as (? & ? & _).
    discriminate.
Qed.




(** C10: a falsy returned value is replaced by an empty dictionary
    before the dictionary test, so [Do] goes on as for [{}] and no
    not-a-dict warning is logged; among the records [Do] appends after
    the call, that warning occurs exactly when the returned value is
    truthy and not a dictionary. *)
Theorem Do_falsy_return_is_empty_mapping
    self input_dict output_dict exec_properties st args st1 v st2 :
  Do_arguments input_dict output_dict (_ARG_FORMATS self) [] st
    = (Ok args, st1) ->
  __call__ (_FUNCTION self) args st1 = (Ok v, st2) ->
  (truthy v = false ->
   Do self input_dict output_dict exec_properties st
     = Do_outputs self output_dict (VDict []) st2 /\
   Do self input_dict output_dict exec_properties st =
     (Ok VNone,
      {| heap := heap st2;
         log := log st2 ++ map Warning_missing_output (declared self) |})) /\
  (forall r st3 delta,
     Do self input_dict output_dict exec_properties st = (r, st3) ->
     log st3 = log st2 ++ delta ->
     ((exists n w, In (Warning_not_a_dict n w) delta) <->
      truthy v = true /\ isinstance_dict v = false)).
Proof.
  intros Hargs Hcall. rewrite (Do_after_call _ _ _ _ _ _ _ _ _ Hargs Hcall).
  split.
  - intros Ht. rewrite Do_outputs_falsy by assumption.
    split; [reflexivity | apply Do_outputs_empty].
  - intros r st3 delta Hdo Hlog.
    apply Do_outputs_log in Hdo as (delta' & Hlog' & Hiff).
    rewrite Hlog in Hlog'. apply app_inv_head in Hlog'. now subst delta'.
Qed.

Lemma Do_falsy_return_is_empty_mapping_witness :
  truthy (VInt 0) = false /\
  Do returns_zero_Executor ∅ ∅ ∅ empty_state =
  (Ok VNone, {| heap := heap empty_state; log := [] |}).
Proof.
  split; [reflexivity|].
  exact (proj2 (proj1 (Do_falsy_return_is_empty_mapping
                         returns_zero_Executor ∅ ∅ ∅ empty_state
                         [] empty_state (VInt 0) empty_state eq_refl eq_refl)
                      eq_refl)).
Defined.

(** ** Distributing a returned dictionary *)

Lemma missing_warnings_In names d n :
  In n names -> present d n = false ->
  In (Warning_missing_output n) (missing_warnings names d).
Proof.
  intros Hin Habs. unfold missing_warnings. apply in_map.
  apply filter_In. split; [exact Hin|]. now rewrite Habs.
Qed.

(** C3, as amended: when the wrapped function returns a dictionary,
    every declared name the dictionary holds has a first artifact in
    [output_dict], and no two declared names share their first artifact,
    then [Do] completes without raising; a declared name absent from the
    dictionary gets a warning and its output artifact is left as it was; a
    declared name present in the dictionary has its value written into the
    value slot of [output_dict[name][0]]; so one missing name leaves only
    that output unset while the others are written. *)
Theorem Do_mapping_return self input_dict output_dict exec_properties
    st args st1 d st2 :
  Do_arguments input_dict output_dict (_ARG_FORMATS self) [] st
    = (Ok args, st1) ->
  __call__ (_FUNCTION self) args st1 = (Ok (VDict d), st2) ->
  (forall n, In n (declared self) -> present d n = true ->
             is_Some (first_artifact output_dict n)) ->
  (forall n1 n2 a, In n1 (declared self) -> In n2 (declared self) ->
                   first_artifact output_dict n1 = Some a ->
                   first_artifact output_dict n2 = Some a -> n1 = n2) ->
  exists st3,
    Do self input_dict output_dict exec_properties st = (Ok VNone, st3) /\
    log st3 = log st2 ++ missing_warnings (declared self) d /\
    forall n, In n (declared self) ->
      match dict_get d n with
      | None =>
          In (Warning_missing_output n) (missing_warnings (declared self) d) /\
          forall a, first_artifact output_dict n = Some a ->
                    heap st3 a = heap st2 a
      | Some w =>
          exists a, first_artifact output_dict n = Some a /\
                    heap st3 a = set_value (heap st2 a) w
      end.
Proof.
  intros Hargs Hcall Hwf Hinj.
  rewrite (Do_after_call _ _ _ _ _ _ _ _ _ Hargs Hcall), Do_outputs_dict.
  destruct (Do_assign_ok output_dict d (_RETURNED_VALUES self) Hwf st2)
    as [st3 Hassign].
  exists st3. rewrite (bind_ok _ _ _ _ _ Hassign).
  split; [reflexivity|].
  destruct (Do_assign_log _ _ _ _ _ _ Hassign) as (names & Hlog & Hnames).
  split; [now rewrite Hlog, Hnames|].
  intros n Hn. destruct (dict_get d n) as [w|] eqn:Hd.
  - destruct (Hwf n Hn) as [a Ha]; [unfold present; now rewrite Hd|].
    exists a. split; [exact Ha|].
    apply (Do_assign_written output_dict d n w a (_RETURNED_VALUES self));
      auto.
    intros m Hm Hma. now apply (Hinj m n a).
  - split.
    + apply missing_warnings_In; [exact Hn|]. unfold present. now rewrite Hd.
    + intros a Ha. apply (Do_assign_frame _ _ _ _ _ _ Hassign).
      intros m Hm Hpresent Hma.
      assert (m = n) as -> by now apply (Hinj m n a).
      unfold present in Hpresent. now rewrite Hd in Hpresent.
Qed.

Lemma Do_mapping_return_witness :
  exists st3,
    Do returns_e_only_Executor ∅ simple_outputs ∅ simple_state
      = (Ok VNone, st3) /\
    log st3 = [Warning_missing_output "f"] /\
    heap st3 4%nat = artifact_with (VInt 1) /\
    heap st3 5%nat = artifact_with VNone.
Proof.
  destruct (Do_mapping_return returns_e_only_Executor ∅ simple_outputs ∅
              simple_state [] simple_state [(VStr "e", VInt 1)] simple_state
              eq_refl eq_refl) as (st3 & Hdo & Hlog & Hnames).
  - intros n [<-|[<-|[]]]; [intros _; now exists 4%nat | discriminate].
  - intros n1 n2 a [<-|[<-|[]]] [<-|[<-|[]]]; try reflexivity;
      intros [= <-]; discriminate.
  - exists st3. split; [exact Hdo|]. split; [exact Hlog|]. split.
    + destruct (Hnames "e" (or_introl eq_refl)) as (a & [= <-] & Ha).
      exact Ha.
    + destruct (Hnames "f" (or_intror (or_introl eq_refl))) as [_ Hf].
      exact (Hf 5%nat eq_refl).
Defined.

(** C3, as stated, fails: the returned dictionary holds the declared name
    [e], but [output_dict] has no entry for it; the write raises
    [KeyError] and no value is written. *)
Lemma Do_present_name_without_output_raises :
  __call__ returns_e [] empty_state
    = (Ok (VDict [(VStr "e", VInt 1)]), empty_state) /\
  Do returns_e_Executor ∅ ∅ ∅ empty_state = (Raise (KeyError "e"), empty_state).
Proof. split; reflexivity. Qed.

(** ** The decorator *)

(** What a successful application of [component] has done. *)
Lemma component_ok_inv func mods comp mods' :
  component func mods = (Ok comp, mods') ->
  exists c ns,
    contains "<locals>" (str_split "." (__qualname__ func)) = false /\
    parse_typehint_component_function func = Ok c /\
    mods !! __module__ func = Some ns /\
    mods' = <[__module__ func :=
                <[(__name__ func ++ "_Executor")%string :=
                    AttrExecutorClass (generated_executor func c)]> ns]> mods /\
    comp = {| component_name := __name__ func;
              SPEC_CLASS :=
                {| spec_class_name := __name__ func ++ "_Spec";
                   INPUTS := channel_parameters (inputs c);
                   OUTPUTS := channel_parameters (outputs c);
                   PARAMETERS := [] |};
              EXECUTOR_SPEC :=
                {| executor_class := generated_executor func c |};
              component_module := __module__ func |}.
Proof.
  unfold component. simpl.
  destruct (contains "<locals>" (str_split "." (__qualname__ func)));
    [discriminate|].
  unfold bind, lift_result.
  destruct (parse_typehint_component_function func) as [c|e]; [|discriminate].
  unfold sys_modules_getitem, setattr_module.
  destruct (mods !! __module__ func) as [ns|] eqn:Hns; [|discriminate].
  intros [= <- <-]. exists c, ns. repeat split.
  apply map_eq. intros k. rewrite lookup_alter, lookup_insert.
  destruct (decide (__module__ func = k)) as [<-|Hne]; [|reflexivity].
  now rewrite Hns.
Qed.

(** A function defined in a closure is refused before its annotations
    are looked at. *)
Lemma component_in_closure_fails func mods :
  contains "<locals>" (str_split "." (__qualname__ func)) = true ->
  component func mods = (Raise (ValueError Not_at_module_level), mods).
Proof. intros H. unfold component. simpl. now rewrite H. Qed.

Lemma simple_component_classification :
  parse_typehint_component_function simple_component =
  Ok {| inputs := [("a", KInteger); ("b", KInteger); ("c", KString);
                   ("d", KBytes)];
        outputs := [];
        arg_formats := _ARG_FORMATS simple_component_Executor;
        returned_values := _RETURNED_VALUES simple_component_Executor |}.
Proof. reflexivity. Qed.

(** ** The test scenario *)

Lemma float_32_exact : exact_integer float_32 = Some 32.
Proof. reflexivity. Qed.

Lemma float_220_exact : exact_integer float_220 = Some 220.
Proof. reflexivity. Qed.

Lemma float_of_int_32 : float_of_int 32 = Ok float_32.
Proof. reflexivity. Qed.

Lemma float_of_int_220 : float_of_int 220 = Ok float_220.
Proof. reflexivity. Qed.

(** [injector], invoked with no inputs and four value-less output
    artifacts, leaves its four values in them; these are the artifacts
    that [simple_component] is then given as inputs. *)
Lemma injector_fills_outputs :
  exists st',
    Do injector_Executor ∅ simple_inputs ∅ empty_state = (Ok VNone, st') /\
    log st' = [] /\
    forall l, heap st' l = simple_heap l.
Proof.
  eexists. split; [reflexivity|]. split; [reflexivity|].
  intros [|[|[|[|l]]]]; reflexivity.
Qed.

(** The base class on its own: nothing to resolve, nothing returned,
    nothing logged. *)
Lemma Do_base_class input_dict output_dict exec_properties st :
  Do _FunctionExecutor input_dict output_dict exec_properties st
  = (Ok VNone, st).
Proof. reflexivity. Qed.

(** C5: [simple_component], compiled by [component] and invoked with
    input artifacts that carry a=10 and b=22 (and any c and d), sets the
    value of output artifact e to 32.0 and that of f to 220.0. *)
Theorem simple_component_sets_e_and_f
    mods comp mods' input_dict output_dict exec_properties st
    la lb lc ld le lf :
  component simple_component mods = (Ok comp, mods') ->
  first_artifact input_dict "a" = Some la ->
  first_artifact input_dict "b" = Some lb ->
  first_artifact input_dict "c" = Some lc ->
  first_artifact input_dict "d" = Some ld ->
  value (heap st la) = VInt 10 ->
  value (heap st lb) = VInt 22 ->
  first_artifact output_dict "e" = Some le ->
  first_artifact output_dict "f" = Some lf ->
  le <> lf ->
  exists st',
    Do (executor_class (EXECUTOR_SPEC comp)) input_dict output_dict
       exec_properties st = (Ok VNone, st') /\
    value (heap st' le) = VFloat float_32 /\
    value (heap st' lf) = VFloat float_220 /\
    log st' = log st.
Proof.
  intros Hcomp Ha Hb Hc Hd Hva Hvb He Hf Hne.
  apply component_ok_inv in Hcomp as (c & ns & _ & Hparse & _ & _ & ->).
  rewrite simple_component_classification in Hparse.
  injection Hparse as <-. simpl executor_class.
  change (generated_executor simple_component _)
    with simple_component_Executor.
  assert (Hargs :
    Forall2 (resolved input_dict output_dict (heap st))
            (_ARG_FORMATS simple_component_Executor)
            [VInt 10; VInt 22; value (heap st lc); value (heap st ld)]).
  { rewrite <- Hva, <- Hvb. repeat constructor; assumption. }
  rewrite (Do_after_arguments _ _ _ _ _ _
             (Do_arguments_resolved _ _ _ _ _ Hargs [])).
  assert (Hcall :
    __call__ simple_component
      [VInt 10; VInt 22; value (heap st lc); value (heap st ld)] st =
    (Ok (VDict [(VStr "e", VFloat float_32); (VStr "f", VFloat float_220)]),
     st)) by reflexivity.
  rewrite (bind_ok _ _ _ _ _ Hcall), Do_outputs_dict.
  unfold bind. simpl _RETURNED_VALUES.
  rewrite Do_assign_step. simpl dict_get. cbv iota. rewrite He.
  rewrite Do_assign_step. simpl dict_get. cbv iota. rewrite Hf.
  simpl. eexists. split; [reflexivity|]. simpl. repeat split.
  - rewrite heap_set_value_ne by exact Hne. now rewrite heap_set_value_eq.
  - now rewrite heap_set_value_eq.
Qed.

Lemma simple_component_sets_e_and_f_witness :
  exists st',
    Do simple_component_Executor simple_inputs simple_outputs ∅ simple_state
      = (Ok VNone, st') /\
    value (heap st' 4%nat) = VFloat float_32 /\
    value (heap st' 5%nat) = VFloat float_220 /\
    log st' = [].
Proof.
  exact (simple_component_sets_e_and_f
           test_modules
           {| component_name := "simple_component";
              SPEC_CLASS :=
                {| spec_class_name := "simple_component_Spec";
                   INPUTS :=
                     [("a", {| channel_type := KInteger |});
                      ("b", {| channel_type := KInteger |});
                      ("c", {| channel_type := KString |});
                      ("d", {| channel_type := KBytes |})];
                   OUTPUTS := [];
                   PARAMETERS := [] |};
              EXECUTOR_SPEC :=
                {| executor_class := simple_component_Executor |};
              component_module := test_module |}
           (snd (component simple_component test_modules))
           simple_inputs simple_outputs ∅ simple_state
           0%nat 1%nat 2%nat 3%nat 4%nat 5%nat
           eq_refl eq_refl eq_refl eq_refl eq_refl eq_refl eq_refl
           eq_refl eq_refl ltac:(discriminate)).
Defined.

(** ** Registration of the executor class *)

(** C8: a successful application of [component] leaves the generated
    executor class in the module of the function, under the name of the
    function followed by [_Executor], where it is found again from the
    module name and that name alone. *)
Theorem component_registers_executor func mods comp mods' :
  component func mods = (Ok comp, mods') ->
  class_name (executor_class (EXECUTOR_SPEC comp))
    = (__name__ func ++ "_Executor")%string /\
  class_module (executor_class (EXECUTOR_SPEC comp)) = __module__ func /\
  _FUNCTION (executor_class (EXECUTOR_SPEC comp)) = func /\
  resolve_executor mods' (__module__ func) (__name__ func ++ "_Executor")
    = Some (executor_class (EXECUTOR_SPEC comp)).
Proof.
  intros H. apply component_ok_inv in H as (c & ns & _ & _ & _ & -> & ->).
  simpl. repeat split. unfold resolve_executor.
  rewrite lookup_insert_eq. now rewrite lookup_insert_eq.
Qed.

Lemma component_registers_executor_witness :
  resolve_executor (snd (component simple_component test_modules))
                   test_module "simple_component_Executor"
  = Some simple_component_Executor.
Proof.
  exact (proj2 (proj2 (proj2
    (component_registers_executor simple_component test_modules
       {| component_name := "simple_component";
          SPEC_CLASS :=
            {| spec_class_name := "simple_component_Spec";
               INPUTS :=
                 [("a", {| channel_type := KInteger |});
                  ("b", {| channel_type := KInteger |});
                  ("c", {| channel_type := KString |});
                  ("d", {| channel_type := KBytes |})];
               OUTPUTS := [];
               PARAMETERS := [] |};
          EXECUTOR_SPEC := {| executor_class := simple_component_Executor |};
          component_module := test_module |}
       (snd (component simple_component test_modules)) eq_refl)))).
Defined.

(** ** The scope check *)

(** The function of the test, defined inside a test method, is refused. *)
Lemma component_my_component_fails :
  component my_component test_modules
  = (Raise (ValueError Not_at_module_level), test_modules).
Proof. now apply component_in_closure_fails. Qed.

(** C4: a function defined in a nested class, with the qualified name
    [Outer.Inner.my_component], passes the scope check, and [component]
    returns a component class for it instead of raising. *)
Theorem component_accepts_nested_class_function :
  contains "<locals>"
           (str_split "." (__qualname__ nested_class_component)) = false /\
  exists comp,
    fst (component nested_class_component test_modules) = Ok comp /\
    component_name comp = "my_component" /\
    resolve_executor (snd (component nested_class_component test_modules))
                     test_module "my_component_Executor"
    = Some (executor_class (EXECUTOR_SPEC comp)).
Proof.
  split; [reflexivity|]. eexists. split; [reflexivity|].
  split; reflexivity.
Qed.

(** ** Unknown argument formats *)

Lemma classify_parameter_members c name annotation c' :
  Forall (fun p => is_member (snd p) = true) (arg_formats c) ->
  classify_parameter c name annotation = Ok c' ->
  Forall (fun p => is_member (snd p) = true) (arg_formats c').
Proof.
  intros Hc. destruct annotation; simpl; try discriminate;
    intros [= <-]; simpl; try assumption;
    apply Forall_app; split; try assumption; now repeat constructor.
Qed.

Lemma classify_parameters_members params :
  forall c c',
    Forall (fun p => is_member (snd p) = true) (arg_formats c) ->
    classify_parameters c params = Ok c' ->
    Forall (fun p => is_member (snd p) = true) (arg_formats c').
Proof.
  induction params as [|[name annotation] params IH]; intros c c' Hc; simpl.
  - now intros [= <-].
  - destruct (classify_parameter c name annotation) as [c1|e] eqn:H1;
      [|discriminate].
    apply IH. eapply classify_parameter_members; eauto.
Qed.

(** Classification produces members of the enumeration only. *)
Lemma parse_typehint_component_function_members func c :
  parse_typehint_component_function func = Ok c ->
  Forall (fun p => is_member (snd p) = true) (arg_formats c).
Proof.
  unfold parse_typehint_component_function.
  destruct (classify_parameters _ (parameters func)) as [c0|e] eqn:Hc0;
    [|discriminate].
  apply classify_parameters_members in Hc0; [|constructor].
  destruct (return_annotation func) as [|entries|s].
  - now intros [= <-].
  - destruct (classify_returns [] entries); [|discriminate].
    now intros [= <-].
  - discriminate.
Qed.

(** The argument loop raises the unknown-format error only at a format
    that is not a member of the enumeration. *)
Lemma Do_arguments_unknown_format_inv input_dict output_dict afs acc st fmt s :
  Do_arguments input_dict output_dict afs acc st
    = (Raise (ValueError (Unknown_argument_format fmt)), s) ->
  exists name, In (name, fmt) afs /\ is_member fmt = false.
Proof.
  intros H.
  apply Do_arguments_raise_inv in H
    as (_ & pre & name & f & post & args & -> & _ & Hraise).
  rewrite Do_argument_eq in Hraise. destruct f as [m|v].
  - destruct (first_artifact _ name); [discriminate|].
    injection Hraise as Herr. unfold lookup_error in Herr.
    now destruct (_ !! name).
  - injection Hraise as <-. exists name.
    split; [apply in_elt | reflexivity].
Qed.

(** With a format that is not a member anywhere in the list, the
    argument loop cannot return. *)
Lemma Do_arguments_not_member_raises input_dict output_dict afs acc st :
  Exists (fun p => is_member (snd p) = false) afs ->
  exists e, Do_arguments input_dict output_dict afs acc st = (Raise e, st).
Proof.
  intros Hex.
  pose proof (Do_arguments_state input_dict output_dict afs acc st) as Hst.
  destruct (Do_arguments input_dict output_dict afs acc st) as [[r|e] s] eqn:H;
    simpl in Hst; subst s; [|now exists e].
  apply Do_arguments_ok_inv in H as (_ & args & _ & Hargs).
  exfalso. clear -Hex Hargs. revert args Hargs.
  induction Hex as [[name fmt] afs Hfmt|p afs _ IH]; intros args Hargs;
    inversion Hargs as [|? v ? args' Hv Hrest]; subst.
  - apply resolved_iff in Hv as (m & a & -> & _). discriminate.
  - now apply (IH args').
Qed.

(** C6, as amended: when the stored argument formats contain a role
    outside the five, [Do] raises before the wrapped function is called,
    with the state as it was. The entries are tried in order and the first
    one that fails decides the error: the [ValueError] that names the
    unknown role when every entry before it resolves, and otherwise the
    lookup error ([KeyError] or [IndexError]) of the earlier entry whose
    name is not served. Argument formats produced by a successful
    classification hold no such role, so the argument loop never raises
    that [ValueError] for them. *)
Theorem Do_unknown_argument_format
    self input_dict output_dict exec_properties st :
  (Exists (fun p => is_member (snd p) = false) (_ARG_FORMATS self) ->
   exists e,
     Do self input_dict output_dict exec_properties st = (Raise e, st) /\
     (is_lookup_error e = true \/
      exists name fmt,
        In (name, fmt) (_ARG_FORMATS self) /\ is_member fmt = false /\
        e = ValueError (Unknown_argument_format fmt))) /\
  (forall pre name v post args,
     _ARG_FORMATS self = pre ++ (name, NotMember v) :: post ->
     Forall2 (resolved input_dict output_dict (heap st)) pre args ->
     Do self input_dict output_dict exec_properties st =
     (Raise (ValueError (Unknown_argument_format (NotMember v))), st)) /\
  (forall pre name m post args,
     _ARG_FORMATS self = pre ++ (name, Member m) :: post ->
     Forall2 (resolved input_dict output_dict (heap st)) pre args ->
     first_artifact (dict_of_format input_dict output_dict m) name = None ->
     Do self input_dict output_dict exec_properties st =
     (Raise (lookup_error (dict_of_format input_dict output_dict m) name),
      st)) /\
  (forall c,
     parse_typehint_component_function (_FUNCTION self) = Ok c ->
     _ARG_FORMATS self = arg_formats c ->
     forall fmt s,
       Do_arguments input_dict output_dict (_ARG_FORMATS self) [] st
       <> (Raise (ValueError (Unknown_argument_format fmt)), s)).
Proof.
  split; [|split; [|split]].
  - intros Hex.
    destruct (Do_arguments_not_member_raises input_dict output_dict
                (_ARG_FORMATS self) [] st Hex) as [e He].
    exists e. split; [now apply Do_arguments_raise|].
    apply Do_arguments_raise_inv in He
      as (_ & pre & name & fmt & post & args & Hafs & _ & Hraise).
    rewrite Do_argument_eq in Hraise. destruct fmt as [m|v].
    + left. destruct (first_artifact _ name); [discriminate|].
      injection Hraise as <-. apply lookup_error_is_lookup_error.
    + right. injection Hraise as <-. exists name, (NotMember v).
      split; [rewrite Hafs; apply in_elt | split; reflexivity].
  - intros pre name v post args Hafs Hpre.
    apply Do_arguments_raise. rewrite Hafs.
    rewrite (Do_arguments_app _ _ _ _ _ _ _ Hpre). reflexivity.
  - intros pre name m post args Hafs Hpre Hnone.
    apply Do_arguments_raise. rewrite Hafs.
    rewrite (Do_arguments_app _ _ _ _ _ _ _ Hpre). cbn [Do_arguments].
    unfold bind. rewrite Do_argument_eq. now rewrite Hnone.
  - intros c Hparse Hafs fmt s H.
    apply Do_arguments_unknown_format_inv in H as (name & Hin & Hfmt).
    apply parse_typehint_component_function_members in Hparse.
    rewrite Hafs in Hin. rewrite List.Forall_forall in Hparse.
    apply Hparse in Hin. simpl in Hin. congruence.
Qed.

Lemma Do_unknown_argument_format_witness :
  Do unknown_format_Executor simple_inputs ∅ ∅ simple_state =
  (Raise (ValueError (Unknown_argument_format (NotMember (VInt 6)))),
   simple_state) /\
  Do unknown_format_Executor outputs_e_only ∅ ∅ simple_state =
  (Raise (KeyError "a"), simple_state) /\
  Do unknown_format_Executor (<["a" := []]> ∅) ∅ ∅ simple_state =
  (Raise IndexError, simple_state).
Proof.
  split; [|split].
  - apply (proj1 (proj2 (Do_unknown_argument_format
                           unknown_format_Executor simple_inputs ∅ ∅
                           simple_state))
                 [("a", Member INPUT_ARTIFACT)] "x" (VInt 6) []
                 [VArtifact 0%nat] eq_refl).
    repeat constructor.
  - exact (proj1 (proj2 (proj2 (Do_unknown_argument_format
                                  unknown_format_Executor outputs_e_only ∅ ∅
                                  simple_state)))
                 [] "a" INPUT_ARTIFACT [("x", NotMember (VInt 6))] []
                 eq_refl (List.Forall2_nil _) eq_refl).
  - exact (proj1 (proj2 (proj2 (Do_unknown_argument_format
                                  unknown_format_Executor (<["a" := []]> ∅)
                                  ∅ ∅ simple_state)))
                 [] "a" INPUT_ARTIFACT [("x", NotMember (VInt 6))] []
                 eq_refl (List.Forall2_nil _) eq_refl).
Defined.

(** C6, as stated, fails: the second argument format is unknown, but the
    first names an input that [input_dict] lacks, and the error raised is
    the [KeyError] of that lookup. *)
Lemma Do_unknown_format_after_missing_input :
  is_member (NotMember (VInt 6)) = false /\
  Do unknown_format_Executor ∅ ∅ ∅ empty_state
  = (Raise (KeyError "a"), empty_state).
Proof. split; reflexivity. Qed.

(** ** The store after the assignment loop *)

(** The loop over a concatenation is the loop over the first part, then
    the loop over the second. *)
Lemma Do_assign_app output_dict d pre rest :
  forall st,
    Do_assign output_dict (pre ++ rest) d st =
    (Do_assign output_dict pre d ;;; Do_assign output_dict rest d) st.
Proof.
  induction pre as [|[name K] pre IH]; intros st; [reflexivity|].
  simpl app. rewrite Do_assign_step. unfold bind at 1.
  rewrite Do_assign_step.
  destruct (dict_get d name) as [w|].
  - destruct (first_artifact output_dict name) as [a|]; [|reflexivity].
    apply IH.
  - apply IH.
Qed.


Lemma after_writes_set_value w v x :
  after_writes w (set_value x v) =
  after_writes (match w with Some u => Some u | None => Some v end) x.
Proof. now destruct w. Qed.

(** The store after a completed loop, artifact by artifact. *)
Lemma Do_assign_heap output_dict d rv :
  forall st st',
    Do_assign output_dict rv d st = (Ok tt, st') ->
    forall l,
      heap st' l = after_writes (last_written output_dict d rv l) (heap st l).
Proof.
  induction rv as [|[name K] rv IH]; intros st st'.
  - now intros [= <-].
  - rewrite Do_assign_step. intros H l. cbn [last_written].
    destruct (dict_get d name) as [w|].
    + destruct (first_artifact output_dict name) as [a|] eqn:Hf;
        [|discriminate].
      rewrite (IH _ _ H l). simpl heap.
      destruct (decide (a = l)) as [->|Hne].
      * rewrite heap_set_value_eq, after_writes_set_value.
        rewrite bool_decide_eq_true_2 by reflexivity.
        now destruct (last_written output_dict d rv l).
      * rewrite heap_set_value_ne by congruence.
        rewrite bool_decide_eq_false_2 by congruence.
        now destruct (last_written output_dict d rv l).
    + rewrite (IH _ _ H l).
      now destruct (last_written output_dict d rv l).
Qed.

(** ** What an invocation changes *)

(** The part of [Do] after the call returns [None], leaves every field
    but values alone, and changes the value of first output artifacts of
    declared names present in the returned dictionary only. *)
Lemma Do_outputs_frame self output_dict v st2 r st3 :
  Do_outputs self output_dict v st2 = (r, st3) ->
  (forall w, r = Ok w -> w = VNone) /\
  (forall l, same_but_value (heap st3 l) (heap st2 l)) /\
  (forall l, heap st3 l <> heap st2 l ->
     exists d n, v = VDict d /\ In n (declared self) /\
                 present d n = true /\
                 first_artifact output_dict n = Some l).
Proof.
  destruct (truthy v) eqn:Ht; [destruct (isinstance_dict v) eqn:Hd|].
  - destruct v; try discriminate. rewrite Do_outputs_dict. unfold bind.
    destruct (Do_assign output_dict (_RETURNED_VALUES self) d st2)
      as [r0 s0] eqn:Hassign.
    intros H.
    assert (st3 = s0 /\ forall w, r = Ok w -> w = VNone) as [-> Hr].
    { destruct r0; injection H as <- <-; split; auto; [congruence|discriminate]. }
    split; [exact Hr|]. split; [apply (Do_assign_fields _ _ _ _ _ _ Hassign)|].
    intros l Hl.
    destruct (existsb (fun n => present d n &&
                bool_decide (first_artifact output_dict n = Some l))
                (declared self)) eqn:Hex.
    + apply existsb_exists in Hex as (n & Hn & Hb).
      apply andb_true_iff in Hb as [Hp Hf].
      apply bool_decide_eq_true in Hf. now exists d, n.
    + exfalso. apply Hl. apply (Do_assign_frame _ _ _ _ _ _ Hassign).
      intros n Hn Hp Hf.
      assert (Hfalse : existsb (fun n => present d n &&
                bool_decide (first_artifact output_dict n = Some l))
                (declared self) = true); [|congruence].
      apply existsb_exists. exists n. split; [exact Hn|].
      apply andb_true_iff. split; [exact Hp|].
      now apply bool_decide_eq_true.
  - rewrite Do_outputs_not_dict by assumption. intros [= <- <-]. simpl.
    split; [congruence|]. split; [intros; apply same_but_value_refl|].
    intros l Hl. now contradiction Hl.
  - rewrite Do_outputs_falsy, Do_outputs_empty by assumption.
    intros [= <- <-]. simpl.
    split; [congruence|]. split; [intros; apply same_but_value_refl|].
    intros l Hl. now contradiction Hl.
Qed.

(** C7, as amended: [Do] returns [None] in every branch in which it
    returns, and has no statement that changes a dictionary or a
    sequence. When an argument cannot be resolved, or the wrapped
    function raises, [Do] itself changes nothing. After the function has
    returned, and whatever the function did to the artifacts itself, [Do]
    changes the store only by setting the value of [output_dict[name][0]]
    for names that are both declared and present in the returned
    dictionary: against the store the function left, the uri and every
    other field of every artifact stay as they were, an artifact whose
    value differs is such a first output artifact, and when [Do] completes
    every artifact holds the value returned under the last declared name
    that targets it. An artifact that is also reached through
    [input_dict], or that sits beyond the first place of a sequence, can
    differ afterwards only if it is the same object as such a first
    output artifact, and then holds that returned value when [Do]
    completes. *)
Theorem Do_frame self input_dict output_dict exec_properties st r st3 :
  Do self input_dict output_dict exec_properties st = (r, st3) ->
  (forall v, r = Ok v -> v = VNone) /\
  ((exists e,
      Do_arguments input_dict output_dict (_ARG_FORMATS self) [] st
        = (Raise e, st) /\
      r = Raise e /\ st3 = st) \/
   (exists args e,
      Do_arguments input_dict output_dict (_ARG_FORMATS self) [] st
        = (Ok args, st) /\
      __call__ (_FUNCTION self) args st = (Raise e, st3) /\
      r = Raise e) \/
   (exists args v st2,
      Do_arguments input_dict output_dict (_ARG_FORMATS self) [] st
        = (Ok args, st) /\
      __call__ (_FUNCTION self) args st = (Ok v, st2) /\
      (forall l, same_but_value (heap st3 l) (heap st2 l)) /\
      (forall l, heap st3 l <> heap st2 l ->
         exists d n, v = VDict d /\ In n (declared self) /\
                     present d n = true /\
                     first_artifact output_dict n = Some l) /\
      (forall d, v = VDict d -> r = Ok VNone ->
         forall l,
           heap st3 l =
           after_writes (last_written output_dict d (_RETURNED_VALUES self) l)
                        (heap st2 l)))).
Proof.
  unfold Do, bind.
  pose proof (Do_arguments_state input_dict output_dict
                (_ARG_FORMATS self) [] st) as Hst.
  destruct (Do_arguments input_dict output_dict (_ARG_FORMATS self) [] st)
    as [[args|e] s] eqn:Hargs; simpl in Hst; subst s.
  - destruct (__call__ (_FUNCTION self) args st) as [[v|e] st2] eqn:Hcall.
    + intros H. pose proof H as Hout.
      apply Do_outputs_frame in H as (Hr & Hfields & Hframe).
      split; [exact Hr|]. right. right. exists args, v, st2.
      split; [first [reflexivity | exact Hargs]|].
      split; [first [reflexivity | exact Hcall]|].
      split; [exact Hfields|]. split; [exact Hframe|].
      intros d -> -> l. rewrite Do_outputs_dict in Hout. unfold bind in Hout.
      destruct (Do_assign output_dict (_RETURNED_VALUES self) d st2)
        as [[[]|e] s] eqn:Hassign; [|discriminate].
      injection Hout as <-. exact (Do_assign_heap _ _ _ _ _ Hassign l).
    + intros [= <- <-]. split; [discriminate|]. right. left.
      exists args, e. split; [first [reflexivity | exact Hargs]|].
      split; [first [reflexivity | exact Hcall] | reflexivity].
  - intros [= <- <-]. split; [discriminate|]. left. exists e.
    split; [first [reflexivity | exact Hargs]|]. split; reflexivity.
Qed.

Lemma Do_frame_witness :
  fst (Do returns_e_only_Executor aliased_inputs simple_outputs ∅
          simple_state) = Ok VNone /\
  heap (snd (Do returns_e_only_Executor aliased_inputs simple_outputs ∅
                simple_state)) 4%nat = artifact_with (VInt 1) /\
  heap (snd (Do returns_e_only_Executor aliased_inputs simple_outputs ∅
                simple_state)) 0%nat = heap simple_state 0%nat.
Proof.
  destruct (Do_frame returns_e_only_Executor aliased_inputs simple_outputs ∅
              simple_state
              (fst (Do returns_e_only_Executor aliased_inputs simple_outputs
                       ∅ simple_state))
              (snd (Do returns_e_only_Executor aliased_inputs simple_outputs
                       ∅ simple_state)) eq_refl)
    as [_ [(e & Hargs & _)|[(args & e & Hargs & Hcall & _)|
                             (args & v & st2 & Hargs & Hcall & _ & _ & Hheap)]]].
  - discriminate Hargs.
  - injection Hargs as <-. discriminate Hcall.
  - injection Hargs as <-. injection Hcall as <- <-.
    split; [reflexivity|]. split.
    + exact (Hheap _ eq_refl eq_refl 4%nat).
    + exact (Hheap _ eq_refl eq_refl 0%nat).
Defined.

(** C7, as stated, fails: the artifact filed under [a] in [input_dict]
    is the one filed under [e] in [output_dict], and [Do] changes its
    value, although the wrapped function touches no artifact. *)
Lemma Do_writes_aliased_input_artifact :
  first_artifact aliased_inputs "a" = Some 4%nat /\
  value (heap simple_state 4%nat) = VNone /\
  value (heap (snd (Do returns_e_only_Executor aliased_inputs simple_outputs
                       ∅ simple_state)) 4%nat) = VInt 1.
Proof. repeat split. Qed.

(** ** Lookups *)

Lemma first_artifact_firsts_only d name :
  first_artifact (firsts_only d) name = first_artifact d name.
Proof.
  unfold first_artifact, firsts_only. rewrite lookup_fmap.
  now destruct (d !! name) as [[|a l]|].
Qed.

Lemma lookup_error_firsts_only d name :
  lookup_error (firsts_only d) name = lookup_error d name.
Proof.
  unfold lookup_error, firsts_only. rewrite lookup_fmap.
  now destruct (d !! name).
Qed.

Lemma dict_of_format_firsts_only input_dict output_dict m :
  dict_of_format (firsts_only input_dict) (firsts_only output_dict) m =
  firsts_only (dict_of_format input_dict output_dict m).
Proof. now destruct m. Qed.

Lemma Do_argument_firsts_only input_dict output_dict name fmt st :
  Do_argument (firsts_only input_dict) (firsts_only output_dict) name fmt st =
  Do_argument input_dict output_dict name fmt st.
Proof.
  rewrite !Do_argument_eq. destruct fmt as [m|v]; [|reflexivity].
  now rewrite dict_of_format_firsts_only, first_artifact_firsts_only,
    lookup_error_firsts_only.
Qed.

Lemma Do_arguments_firsts_only input_dict output_dict afs :
  forall acc st,
    Do_arguments (firsts_only input_dict) (firsts_only output_dict) afs acc st
    = Do_arguments input_dict output_dict afs acc st.
Proof.
  induction afs as [|[name fmt] afs IH]; intros acc st; simpl; [reflexivity|].
  unfold bind. rewrite Do_argument_firsts_only.
  destruct (Do_argument input_dict output_dict name fmt st) as [[v|e] s];
    [apply IH | reflexivity].
Qed.

Lemma Do_assign_firsts_only output_dict d rv :
  forall st,
    Do_assign (firsts_only output_dict) rv d st = Do_assign output_dict rv d st.
Proof.
  induction rv as [|[name K] rv IH]; intros st; [reflexivity|].
  rewrite !Do_assign_step, first_artifact_firsts_only,
    lookup_error_firsts_only.
  destruct (dict_get d name); [destruct (first_artifact output_dict name)|];
    auto.
Qed.

Lemma Do_outputs_firsts_only self output_dict v st :
  Do_outputs self (firsts_only output_dict) v st
  = Do_outputs self output_dict v st.
Proof.
  unfold Do_outputs. destruct (py_or v (VDict [])); try reflexivity.
  unfold bind. now rewrite Do_assign_firsts_only.
Qed.

(** [Do] consults nothing but the first element of each sequence. *)
Lemma Do_firsts_only self input_dict output_dict exec_properties st :
  Do self (firsts_only input_dict) (firsts_only output_dict)
     exec_properties st
  = Do self input_dict output_dict exec_properties st.
Proof.
  unfold Do, bind. rewrite Do_arguments_firsts_only.
  destruct (Do_arguments input_dict output_dict (_ARG_FORMATS self) [] st)
    as [[args|e] s]; [|reflexivity].
  destruct (__call__ (_FUNCTION self) args s) as [[v|e] s']; [|reflexivity].
  apply Do_outputs_firsts_only.
Qed.

(** With every argument served, the argument loop raises no lookup
    error. *)
Lemma Do_arguments_served input_dict output_dict afs st e s :
  arguments_served input_dict output_dict afs ->
  Do_arguments input_dict output_dict afs [] st = (Raise e, s) ->
  is_lookup_error e = false.
Proof.
  intros Hserved H.
  apply Do_arguments_raise_inv in H
    as (_ & pre & name & fmt & post & args & -> & _ & Hraise).
  unfold arguments_served in Hserved.
  rewrite List.Forall_forall in Hserved.
  specialize (Hserved (name, fmt) (in_elt _ _ _)). simpl in Hserved.
  rewrite Do_argument_eq in Hraise. destruct fmt as [m|v].
  - destruct Hserved as [a Ha]. rewrite Ha in Hraise. discriminate.
  - now injection Hraise as <-.
Qed.

(** With every declared returned value served, the part of [Do] after
    the call cannot raise. *)
Lemma Do_outputs_served self output_dict v st :
  returned_values_served output_dict self ->
  exists st', Do_outputs self output_dict v st = (Ok VNone, st').
Proof.
  intros Hserved.
  destruct (truthy v) eqn:Ht; [destruct (isinstance_dict v) eqn:Hd|].
  - destruct v; try discriminate. rewrite Do_outputs_dict.
    destruct (Do_assign_ok output_dict d (_RETURNED_VALUES self)) with (st := st)
      as [st' Hassign]; [intros n Hn _; now apply Hserved|].
    exists st'. now rewrite (bind_ok _ _ _ _ _ Hassign).
  - rewrite Do_outputs_not_dict by assumption. now eexists.
  - rewrite Do_outputs_falsy, Do_outputs_empty by assumption. now eexists.
Qed.

(** The output dictionary is consulted only under the declared names
    that the returned dictionary holds. *)
Lemma Do_assign_ext_present output_dict output_dict' d rv :
  (forall n, In n (map fst rv) -> present d n = true ->
             output_dict !! n = output_dict' !! n) ->
  forall st,
    Do_assign output_dict rv d st = Do_assign output_dict' rv d st.
Proof.
  induction rv as [|[name K] rv IH]; intros Hsame st; [reflexivity|].
  rewrite !Do_assign_step.
  assert (Hrest : forall n, In n (map fst rv) -> present d n = true ->
            output_dict !! n = output_dict' !! n)
    by (intros n Hn; apply Hsame; now right).
  pose proof (Hsame name (or_introl eq_refl)) as Hname.
  unfold present in Hname.
  destruct (dict_get d name) as [w|]; [|apply (IH Hrest)].
  unfold first_artifact, lookup_error. rewrite (Hname eq_refl).
  destruct (output_dict' !! name) as [[|a l]|]; auto using IH.
Qed.

(** C9, as amended: when every name of the argument formats has a
    non-empty sequence in the dictionary its format reads, and every
    declared returned value has one in [output_dict], neither the
    argument loop nor the assignment loop raises a lookup or index error;
    [Do] consults and writes first elements only. Without that, [Do]
    raises [KeyError] or [IndexError] at the lookup that fails: at the
    first argument format whose name is not served (the entries before it
    being resolved), or at the first declared name that the returned
    dictionary holds and [output_dict] does not serve. A declared name
    that the returned dictionary lacks is never looked up in
    [output_dict]: the assignment loop completes as soon as the declared
    names that the dictionary holds are served, it runs alike on output
    dictionaries that agree on those names, and a returned value that is
    not a dictionary causes no lookup at all. *)
Theorem Do_lookups self input_dict output_dict exec_properties st :
  (arguments_served input_dict output_dict (_ARG_FORMATS self) ->
   returned_values_served output_dict self ->
   (forall e s,
      Do_arguments input_dict output_dict (_ARG_FORMATS self) [] st
        = (Raise e, s) -> is_lookup_error e = false) /\
   (forall v st2, exists st3,
      Do_outputs self output_dict v st2 = (Ok VNone, st3))) /\
  Do self (firsts_only input_dict) (firsts_only output_dict)
     exec_properties st
  = Do self input_dict output_dict exec_properties st /\
  (forall v st2 r st3 l,
     Do_outputs self output_dict v st2 = (r, st3) ->
     heap st3 l <> heap st2 l ->
     exists n, first_artifact output_dict n = Some l) /\
  (forall pre name m post args,
     _ARG_FORMATS self = pre ++ (name, Member m) :: post ->
     Forall2 (resolved input_dict output_dict (heap st)) pre args ->
     first_artifact (dict_of_format input_dict output_dict m) name = None ->
     is_lookup_error
       (lookup_error (dict_of_format input_dict output_dict m) name) = true /\
     Do self input_dict output_dict exec_properties st =
     (Raise (lookup_error (dict_of_format input_dict output_dict m) name),
      st)) /\
  (forall args st1 d st2 pre name K post,
     Do_arguments input_dict output_dict (_ARG_FORMATS self) [] st
       = (Ok args, st1) ->
     __call__ (_FUNCTION self) args st1 = (Ok (VDict d), st2) ->
     _RETURNED_VALUES self = pre ++ (name, K) :: post ->
     (forall n, In n (map fst pre) -> present d n = true ->
                is_Some (first_artifact output_dict n)) ->
     present d name = true ->
     first_artifact output_dict name = None ->
     is_lookup_error (lookup_error output_dict name) = true /\
     exists st3,
       Do self input_dict output_dict exec_properties st
       = (Raise (lookup_error output_dict name), st3)) /\
  (forall d st2,
     (forall n, In n (declared self) -> present d n = true ->
                is_Some (first_artifact output_dict n)) ->
     exists st3,
       Do_outputs self output_dict (VDict d) st2 = (Ok VNone, st3)) /\
  (forall output_dict' d st2,
     (forall n, In n (declared self) -> present d n = true ->
                output_dict !! n = output_dict' !! n) ->
     Do_outputs self output_dict (VDict d) st2
     = Do_outputs self output_dict' (VDict d) st2) /\
  (forall output_dict' v st2,
     isinstance_dict v = false ->
     Do_outputs self output_dict v st2 = Do_outputs self output_dict' v st2).
Proof.
  split; [|split; [|split; [|split; [|split; [|split; [|split]]]]]].
  - intros Hargs Hrets. split.
    + intros e s. now apply Do_arguments_served.
    + intros v st2. now apply Do_outputs_served.
  - apply Do_firsts_only.
  - intros v st2 r st3 l H Hl.
    apply Do_outputs_frame in H as (_ & _ & Hframe).
    apply Hframe in Hl as (d & n & _ & _ & _ & Hf). now exists n.
  - intros pre name m post args Hafs Hpre Hnone.
    split; [apply lookup_error_is_lookup_error|].
    apply Do_arguments_raise. rewrite Hafs.
    rewrite (Do_arguments_app _ _ _ _ _ _ _ Hpre). cbn [Do_arguments].
    unfold bind. rewrite Do_argument_eq. now rewrite Hnone.
  - intros args st1 d st2 pre name K post Hargs Hcall Hrv Hpre Hp Hnone.
    split; [apply lookup_error_is_lookup_error|].
    rewrite (Do_after_call _ _ _ _ _ _ _ _ _ Hargs Hcall), Do_outputs_dict.
    rewrite Hrv.
    destruct (Do_assign_raise output_dict d pre name K post Hpre Hp Hnone st2)
      as [st3 Hraise].
    exists st3. now rewrite (bind_raise _ _ _ _ _ Hraise).
  - intros d st2 Hserved. rewrite Do_outputs_dict.
    destruct (Do_assign_ok output_dict d (_RETURNED_VALUES self) Hserved st2)
      as [st3 Hassign].
    exists st3. now rewrite (bind_ok _ _ _ _ _ Hassign).
  - intros output_dict' d st2 Hsame. rewrite !Do_outputs_dict. unfold bind.
    now rewrite (Do_assign_ext_present _ _ _ _ Hsame).
  - intros output_dict' v st2 Hd. destruct (truthy v) eqn:Ht.
    + now rewrite !Do_outputs_not_dict.
    + now rewrite !(Do_outputs_falsy _ _ v), !Do_outputs_empty.
Qed.

Lemma Do_lookups_witness :
  (forall v st2, exists st3,
     Do_outputs simple_component_Executor simple_outputs v st2
       = (Ok VNone, st3)) /\
  Do simple_component_Executor ∅ simple_outputs ∅ simple_state
    = (Raise (KeyError "a"), simple_state) /\
  (exists st3,
     Do returns_e_Executor ∅ (<["e" := []]> ∅) ∅ simple_state
     = (Raise IndexError, st3)) /\
  (exists st3,
     Do_outputs returns_e_only_Executor outputs_e_only
                (VDict [(VStr "e", VInt 1)]) simple_state
     = (Ok VNone, st3)).
Proof.
  split; [|split; [|split]].
  - refine (proj2 (proj1 (Do_lookups simple_component_Executor simple_inputs
                            simple_outputs ∅ simple_state) _ _)).
    + repeat constructor; simpl; now eexists.
    + intros n [<-|[<-|[]]]; now eexists.
  - exact (proj2 (proj1 (proj2 (proj2 (proj2
             (Do_lookups simple_component_Executor ∅ simple_outputs ∅
                simple_state))))
             [] "a" ARTIFACT_VALUE
             [("b", Member ARTIFACT_VALUE); ("c", Member ARTIFACT_VALUE);
              ("d", Member ARTIFACT_VALUE)] []
             eq_refl (List.Forall2_nil _) eq_refl)).
  - exact (proj2 (proj1 (proj2 (proj2 (proj2 (proj2
             (Do_lookups returns_e_Executor ∅ (<["e" := []]> ∅) ∅
                simple_state)))))
             [] simple_state [(VStr "e", VInt 1)] simple_state
             [] "e" KInteger [] eq_refl eq_refl eq_refl
             (fun n (H : In n []) => False_ind _ H) eq_refl eq_refl)).
  - refine (proj1 (proj2 (proj2 (proj2 (proj2 (proj2
              (Do_lookups returns_e_only_Executor ∅ outputs_e_only ∅
                 simple_state))))))
              [(VStr "e", VInt 1)] simple_state _).
    intros n [<-|[<-|[]]]; [intros _; now exists 4%nat | discriminate].
Defined.

(** C9, as stated, fails: the declared name [f] has no entry in
    [output_dict], but the wrapped function does not return it, so it is
    never looked up and [Do] completes. *)
Lemma Do_unserved_name_not_returned_completes :
  In "f" (declared returns_e_only_Executor) /\
  outputs_e_only !! "f" = None /\
  fst (Do returns_e_only_Executor ∅ outputs_e_only ∅ simple_state)
    = Ok VNone.
Proof. repeat split. simpl. auto. Qed.

(** * Further properties of [Do] *)

(** ** Why [Do] raises *)



(** ** No rollback *)

Lemma Do_assign_missing_warnings output_dict d rv st st' :
  Do_assign output_dict rv d st = (Ok tt, st') ->
  log st' = log st ++ missing_warnings (map fst rv) d.
Proof.
  intros H. apply Do_assign_log in H as (names & Hlog & Hok).
  now rewrite Hlog, Hok.
Qed.

(** X2: there is no rollback. When the returned dictionary holds a
    declared name that [output_dict] does not serve, [Do] raises the
    lookup error of that name, and the declared names before it have
    already been dealt with: their warnings are in the log and their
    values are in the store. *)
Theorem Do_no_rollback self input_dict output_dict exec_properties
    st args st1 d st2 pre name K post :
  Do_arguments input_dict output_dict (_ARG_FORMATS self) [] st
    = (Ok args, st1) ->
  __call__ (_FUNCTION self) args st1 = (Ok (VDict d), st2) ->
  _RETURNED_VALUES self = pre ++ (name, K) :: post ->
  (forall n, In n (map fst pre) -> present d n = true ->
             is_Some (first_artifact output_dict n)) ->
  present d name = true ->
  first_artifact output_dict name = None ->
  exists st3,
    Do self input_dict output_dict exec_properties st
      = (Raise (lookup_error output_dict name), st3) /\
    log st3 = log st2 ++ missing_warnings (map fst pre) d /\
    forall l,
      heap st3 l = after_writes (last_written output_dict d pre l) (heap st2 l).
Proof.
  intros Hargs Hcall Hrv Hpre Hp Hnone.
  rewrite (Do_after_call _ _ _ _ _ _ _ _ _ Hargs Hcall), Do_outputs_dict, Hrv.
  destruct (Do_assign_ok output_dict d pre Hpre st2) as [st3 Hassign].
  exists st3. split; [|split].
  - unfold bind at 1. rewrite Do_assign_app.
    rewrite (bind_ok _ _ _ _ _ Hassign), Do_assign_step.
    unfold present in Hp. destruct (dict_get d name); [|discriminate].
    now rewrite Hnone.
  - exact (Do_assign_missing_warnings _ _ _ _ _ Hassign).
  - exact (Do_assign_heap _ _ _ _ _ Hassign).
Qed.

Lemma Do_no_rollback_witness :
  exists st3,
    Do injector_Executor ∅ outputs_a_only ∅ empty_state
      = (Raise (KeyError "b"), st3) /\
    log st3 = [] /\
    heap st3 0%nat = artifact_with (VInt 10).
Proof.
  destruct (Do_no_rollback injector_Executor ∅ outputs_a_only ∅ empty_state
              [] empty_state _ empty_state [("a", KInteger)] "b" KInteger
              [("c", KString); ("d", KBytes)]
              eq_refl eq_refl eq_refl) as (st3 & Hdo & Hlog & Hheap).
  - intros n [<-|[]] _. now exists 0%nat.
  - reflexivity.
  - reflexivity.
  - exists st3. split; [exact Hdo|]. split; [exact Hlog|].
    exact (Hheap 0%nat).
Defined.

(** ** The store after [Do] *)

(** X3: whenever [Do] returns after the wrapped function returned a
    dictionary, it returns [None], the log has grown by one warning per
    declared name the dictionary lacks, in declared order, and every
    artifact holds the value of the last declared name that the
    dictionary holds and whose first output artifact it is; an artifact
    that is no such first output artifact is as the function left it.
    When two declared names share an artifact, the later one wins. *)
Theorem Do_postcondition self input_dict output_dict exec_properties
    st args st1 d st2 r st3 :
  Do_arguments input_dict output_dict (_ARG_FORMATS self) [] st
    = (Ok args, st1) ->
  __call__ (_FUNCTION self) args st1 = (Ok (VDict d), st2) ->
  Do self input_dict output_dict exec_properties st = (Ok r, st3) ->
  r = VNone /\
  log st3 = log st2 ++ missing_warnings (declared self) d /\
  forall l,
    heap st3 l =
    after_writes (last_written output_dict d (_RETURNED_VALUES self) l)
                 (heap st2 l).
Proof.
  intros Hargs Hcall.
  rewrite (Do_after_call _ _ _ _ _ _ _ _ _ Hargs Hcall), Do_outputs_dict.
  unfold bind.
  destruct (Do_assign output_dict (_RETURNED_VALUES self) d st2)
    as [[[]|e] s] eqn:Hassign; [|discriminate].
  intros [= <- <-]. split; [reflexivity|]. split.
  - exact (Do_assign_missing_warnings _ _ _ _ _ Hassign).
  - exact (Do_assign_heap _ _ _ _ _ Hassign).
Qed.

Lemma Do_postcondition_witness :
  fst (Do returns_e_only_Executor ∅ simple_outputs ∅ simple_state)
    = Ok VNone /\
  log (snd (Do returns_e_only_Executor ∅ simple_outputs ∅ simple_state))
    = [Warning_missing_output "f"] /\
  heap (snd (Do returns_e_only_Executor ∅ simple_outputs ∅ simple_state))
       4%nat = artifact_with (VInt 1).
Proof.
  destruct (Do_postcondition returns_e_only_Executor ∅ simple_outputs ∅
              simple_state [] simple_state [(VStr "e", VInt 1)] simple_state
              VNone
              (snd (Do returns_e_only_Executor ∅ simple_outputs ∅
                       simple_state))
              eq_refl eq_refl eq_refl) as (_ & Hlog & Hheap).
  split; [reflexivity|]. split; [exact Hlog|]. exact (Hheap 4%nat).
Defined.

(** ** Running [Do] again *)

(** A completed loop found every name it had to look up. *)
Lemma Do_assign_ok_inv output_dict d rv :
  forall st st',
    Do_assign output_dict rv d st = (Ok tt, st') ->
    forall n, In n (map fst rv) -> present d n = true ->
              is_Some (first_artifact output_dict n).
Proof.
  induction rv as [|[name K] rv IH]; intros st st' H n Hn Hp;
    [contradiction|].
  rewrite Do_assign_step in H. unfold present in Hp.
  simpl in Hn. destruct Hn as [<-|Hn].
  - destruct (dict_get d name); [|discriminate].
    destruct (first_artifact output_dict name); [now eexists|discriminate].
  - destruct (dict_get d name).
    + destruct (first_artifact output_dict name); [|discriminate].
      now apply (IH _ _ H).
    + now apply (IH _ _ H).
Qed.

Lemma after_writes_idemp w x :
  after_writes w (after_writes w x) = after_writes w x.
Proof. now destruct w. Qed.

(** X4: running [Do] a second time, when the wrapped function returns
    the same value again and leaves the store alone, completes again and
    leaves every artifact exactly as the first run left it. *)
Theorem Do_again self input_dict output_dict exec_properties
    st args st1 v st2 r st3 args' st3' st4 :
  Do_arguments input_dict output_dict (_ARG_FORMATS self) [] st
    = (Ok args, st1) ->
  __call__ (_FUNCTION self) args st1 = (Ok v, st2) ->
  Do self input_dict output_dict exec_properties st = (Ok r, st3) ->
  Do_arguments input_dict output_dict (_ARG_FORMATS self) [] st3
    = (Ok args', st3') ->
  __call__ (_FUNCTION self) args' st3' = (Ok v, st4) ->
  heap st4 = heap st3 ->
  exists st5,
    Do self input_dict output_dict exec_properties st3 = (Ok VNone, st5) /\
    forall l, heap st5 l = heap st3 l.
Proof.
  intros Hargs Hcall Hdo Hargs' Hcall' Hheap.
  rewrite (Do_after_call _ _ _ _ _ _ _ _ _ Hargs Hcall) in Hdo.
  rewrite (Do_after_call _ _ _ _ _ _ _ _ _ Hargs' Hcall').
  destruct (truthy v) eqn:Ht; [destruct (isinstance_dict v) eqn:Hd|].
  - destruct v; try discriminate. rewrite Do_outputs_dict in *.
    unfold bind in Hdo.
    destruct (Do_assign output_dict (_RETURNED_VALUES self) d st2)
      as [[[]|e] s] eqn:Hassign; [|discriminate].
    injection Hdo as <- <-.
    destruct (Do_assign_ok output_dict d (_RETURNED_VALUES self)
                (Do_assign_ok_inv _ _ _ _ _ Hassign) st4) as [st5 Hassign'].
    exists st5. rewrite (bind_ok _ _ _ _ _ Hassign').
    split; [reflexivity|]. intros l.
    rewrite (Do_assign_heap _ _ _ _ _ Hassign' l), Hheap.
    rewrite (Do_assign_heap _ _ _ _ _ Hassign l).
    apply after_writes_idemp.
  - rewrite Do_outputs_not_dict by assumption. eexists.
    split; [reflexivity|]. simpl. now rewrite Hheap.
  - rewrite Do_outputs_falsy, Do_outputs_empty by assumption. eexists.
    split; [reflexivity|]. simpl. now rewrite Hheap.
Qed.

Lemma Do_again_witness :
  exists st5,
    Do returns_e_only_Executor ∅ simple_outputs ∅
       (snd (Do returns_e_only_Executor ∅ simple_outputs ∅ simple_state))
    = (Ok VNone, st5) /\
    heap st5 4%nat = artifact_with (VInt 1).
Proof.
  destruct (Do_again returns_e_only_Executor ∅ simple_outputs ∅
              simple_state [] simple_state (VDict [(VStr "e", VInt 1)])
              simple_state VNone
              (snd (Do returns_e_only_Executor ∅ simple_outputs ∅
                       simple_state))
              [] _ _ eq_refl eq_refl eq_refl eq_refl eq_refl eq_refl)
    as (st5 & Hdo & Hheap).
  exists st5. split; [exact Hdo|]. exact (Hheap 4%nat).
Defined.

(** ** What [Do] looks at *)

Lemma first_artifact_ext (d d' : ArtifactDict) name :
  d !! name = d' !! name ->
  first_artifact d name = first_artifact d' name /\
  lookup_error d name = lookup_error d' name.
Proof. unfold first_artifact, lookup_error. now intros ->. Qed.

Lemma Do_arguments_ext input_dict output_dict input_dict' output_dict' afs :
  (forall name m, In (name, Member m) afs ->
     dict_of_format input_dict output_dict m !! name
     = dict_of_format input_dict' output_dict' m !! name) ->
  forall acc st,
    Do_arguments input_dict output_dict afs acc st
    = Do_arguments input_dict' output_dict' afs acc st.
Proof.
  induction afs as [|[name fmt] afs IH]; intros Hsame acc st; [reflexivity|].
  cbn [Do_arguments]. unfold bind. rewrite !Do_argument_eq.
  assert (Hrest : forall n m, In (n, Member m) afs ->
            dict_of_format input_dict output_dict m !! n
            = dict_of_format input_dict' output_dict' m !! n)
    by (intros n m Hn; apply Hsame; now right).
  destruct fmt as [m|v]; [|reflexivity].
  destruct (first_artifact_ext _ _ _ (Hsame name m (or_introl eq_refl)))
    as [-> ->].
  destruct (first_artifact _ name); [apply (IH Hrest) | reflexivity].
Qed.

Lemma Do_assign_ext output_dict output_dict' d rv :
  (forall n, In n (map fst rv) -> output_dict !! n = output_dict' !! n) ->
  forall st,
    Do_assign output_dict rv d st = Do_assign output_dict' rv d st.
Proof.
  induction rv as [|[name K] rv IH]; intros Hsame st; [reflexivity|].
  rewrite !Do_assign_step.
  assert (Hrest : forall n, In n (map fst rv) ->
            output_dict !! n = output_dict' !! n)
    by (intros n Hn; apply Hsame; now right).
  destruct (first_artifact_ext _ _ _ (Hsame name (or_introl eq_refl)))
    as [-> ->].
  destruct (dict_get d name); [destruct (first_artifact _ name)|];
    auto using IH.
Qed.

(** X5: [Do] looks at the artifact dictionaries only under the names of
    its argument formats (in the dictionary the format reads) and under
    its declared returned values (in [output_dict]); dictionaries that
    agree there, and any execution properties, give the same run. *)
Theorem Do_depends_on_named_entries self input_dict output_dict
    input_dict' output_dict' exec_properties exec_properties' st :
  (forall name m, In (name, Member m) (_ARG_FORMATS self) ->
     dict_of_format input_dict output_dict m !! name
     = dict_of_format input_dict' output_dict' m !! name) ->
  (forall n, In n (declared self) -> output_dict !! n = output_dict' !! n) ->
  Do self input_dict output_dict exec_properties st
  = Do self input_dict' output_dict' exec_properties' st.
Proof.
  intros Hargs Hrets. unfold Do, bind.
  rewrite (Do_arguments_ext _ _ _ _ _ Hargs).
  destruct (Do_arguments input_dict' output_dict' (_ARG_FORMATS self) [] st)
    as [[args|e] s]; [|reflexivity].
  destruct (__call__ (_FUNCTION self) args s) as [[v|e] s']; [|reflexivity].
  unfold Do_outputs. destruct (py_or v (VDict [])); try reflexivity.
  unfold bind. now rewrite (Do_assign_ext _ _ _ _ Hrets).
Qed.

Lemma Do_depends_on_named_entries_witness :
  Do returns_e_only_Executor simple_inputs simple_outputs ∅ simple_state
  = Do returns_e_only_Executor ∅ simple_outputs ∅ simple_state.
Proof.
  apply (Do_depends_on_named_entries returns_e_only_Executor
           simple_inputs simple_outputs ∅ simple_outputs ∅ ∅ simple_state).
  - intros name m [].
  - reflexivity.
Defined.

(** ** What [Do] does not check *)

Lemma Do_assign_names output_dict d :
  forall rv rv',
    map fst rv = map fst rv' ->
    forall st, Do_assign output_dict rv d st = Do_assign output_dict rv' d st.
Proof.
  induction rv as [|[name K] rv IH]; intros [|[name' K'] rv'] Hnames st;
    try discriminate; [reflexivity|].
  injection Hnames as -> Hnames. rewrite !Do_assign_step.
  destruct (dict_get d name'); [destruct (first_artifact _ name')|];
    auto using IH.
Qed.

(** X6: the kinds declared for the returned values are never compared
    with what the function returns: executor classes that differ only in
    those kinds (and in their own names) run alike, so a value of another
    type than declared is written as it is. *)
Theorem Do_ignores_declared_kinds self self'
    input_dict output_dict exec_properties st :
  _ARG_FORMATS self = _ARG_FORMATS self' ->
  _FUNCTION self = _FUNCTION self' ->
  declared self = declared self' ->
  Do self input_dict output_dict exec_properties st
  = Do self' input_dict output_dict exec_properties st.
Proof.
  intros Hafs Hf Hrv. unfold Do, bind. rewrite Hafs, Hf.
  destruct (Do_arguments input_dict output_dict (_ARG_FORMATS self') [] st)
    as [[args|e] s]; [|reflexivity].
  destruct (__call__ (_FUNCTION self') args s) as [[v|e] s']; [|reflexivity].
  unfold Do_outputs. rewrite Hf.
  destruct (py_or v (VDict [])); try reflexivity.
  unfold bind. now rewrite (Do_assign_names _ _ _ _ Hrv).
Qed.

Lemma Do_ignores_declared_kinds_witness :
  Do returns_e_Executor ∅ simple_outputs ∅ simple_state
  = Do {| class_name := "returns_e_Executor";
          _ARG_FORMATS := [];
          _FUNCTION := returns_e;
          _RETURNED_VALUES := [("e", KString)];
          class_module := test_module |} ∅ simple_outputs ∅ simple_state.
Proof.
  exact (Do_ignores_declared_kinds returns_e_Executor
           {| class_name := "returns_e_Executor";
              _ARG_FORMATS := [];
              _FUNCTION := returns_e;
              _RETURNED_VALUES := [("e", KString)];
              class_module := test_module |}
           ∅ simple_outputs ∅ simple_state eq_refl eq_refl eq_refl).
Defined.

Lemma Do_assign_dict_ext output_dict d d' rv :
  (forall n, In n (map fst rv) -> dict_get d n = dict_get d' n) ->
  forall st, Do_assign output_dict rv d st = Do_assign output_dict rv d' st.
Proof.
  induction rv as [|[name K] rv IH]; intros Hsame st; [reflexivity|].
  rewrite !Do_assign_step.
  assert (Hrest : forall n, In n (map fst rv) -> dict_get d n = dict_get d' n)
    by (intros n Hn; apply Hsame; now right).
  rewrite <- (Hsame name (or_introl eq_refl)).
  destruct (dict_get d name); [destruct (first_artifact _ name)|];
    auto using IH.
Qed.

(** X7: keys of the returned dictionary that are not declared are
    ignored, without a warning and without a write: returned dictionaries
    that agree on the declared names are distributed alike. *)
Theorem Do_outputs_ignores_undeclared_keys self output_dict d d' st :
  (forall n, In n (declared self) -> dict_get d n = dict_get d' n) ->
  Do_outputs self output_dict (VDict d) st
  = Do_outputs self output_dict (VDict d') st.
Proof.
  intros Hsame. rewrite !Do_outputs_dict. unfold bind.
  now rewrite (Do_assign_dict_ext _ _ _ _ Hsame).
Qed.

Lemma Do_outputs_ignores_undeclared_keys_witness :
  Do_outputs returns_e_Executor simple_outputs
             (VDict [(VStr "e", VInt 1)]) simple_state
  = Do_outputs returns_e_Executor simple_outputs
               (VDict [(VStr "g", VInt 7); (VStr "e", VInt 1); (VInt 3, VNone)])
               simple_state.
Proof.
  apply (Do_outputs_ignores_undeclared_keys returns_e_Executor simple_outputs
           [(VStr "e", VInt 1)]
           [(VStr "g", VInt 7); (VStr "e", VInt 1); (VInt 3, VNone)]
           simple_state).
  intros n [<-|[]]. reflexivity.
Defined.

(** ** From one component to the next *)

(** X8: what one component returns under a declared name is what the
    next component is passed for a value parameter wired to the same
    artifact: after a completed [Do] whose function returned [w] under
    [n], the first artifact of [n] holds [w], and an [ARTIFACT_VALUE]
    argument resolved from that artifact is [w]. *)
Theorem Do_output_feeds_next_input self input_dict output_dict exec_properties
    st args st1 d st2 r st3 n w a input_dict2 output_dict2 m :
  Do_arguments input_dict output_dict (_ARG_FORMATS self) [] st
    = (Ok args, st1) ->
  __call__ (_FUNCTION self) args st1 = (Ok (VDict d), st2) ->
  Do self input_dict output_dict exec_properties st = (Ok r, st3) ->
  In n (declared self) ->
  dict_get d n = Some w ->
  first_artifact output_dict n = Some a ->
  (forall n', In n' (declared self) ->
              first_artifact output_dict n' = Some a -> n' = n) ->
  first_artifact input_dict2 m = Some a ->
  Do_argument input_dict2 output_dict2 m (Member ARTIFACT_VALUE) st3
  = (Ok w, st3).
Proof.
  intros Hargs Hcall Hdo Hn Hw Ha Hinj Hm.
  rewrite (Do_after_call _ _ _ _ _ _ _ _ _ Hargs Hcall), Do_outputs_dict in Hdo.
  unfold bind in Hdo.
  destruct (Do_assign output_dict (_RETURNED_VALUES self) d st2)
    as [[[]|e] s] eqn:Hassign; [|discriminate].
  injection Hdo as <- <-.
  rewrite Do_argument_eq. simpl dict_of_format. rewrite Hm. simpl.
  now rewrite (Do_assign_written _ _ _ _ _ _ Hn Hw Ha Hinj _ _ Hassign).
Qed.

Lemma Do_output_feeds_next_input_witness :
  Do_argument simple_inputs simple_outputs "b" (Member ARTIFACT_VALUE)
    (snd (Do injector_Executor ∅ simple_inputs ∅ empty_state))
  = (Ok (VInt 22), snd (Do injector_Executor ∅ simple_inputs ∅ empty_state)).
Proof.
  apply (Do_output_feeds_next_input injector_Executor ∅ simple_inputs ∅
           empty_state [] empty_state _ empty_state VNone
           (snd (Do injector_Executor ∅ simple_inputs ∅ empty_state))
           "b" (VInt 22) 1%nat simple_inputs simple_outputs "b"
           eq_refl eq_refl eq_refl);
    try reflexivity.
  - simpl. auto.
  - intros n' [<-|[<-|[<-|[<-|[]]]]]; try reflexivity; discriminate.
Defined.

(** The chain of the test: [injector], then [simple_component] on the
    artifacts [injector] filled, ends with e = 32.0 and f = 220.0. *)
Lemma injector_then_simple_component :
  let st1 := snd (Do injector_Executor ∅ simple_inputs ∅ empty_state) in
  let st2 := snd (Do simple_component_Executor simple_inputs simple_outputs ∅
                     st1) in
  fst (Do simple_component_Executor simple_inputs simple_outputs ∅ st1)
    = Ok VNone /\
  value (heap st2 4%nat) = VFloat float_32 /\
  value (heap st2 5%nat) = VFloat float_220 /\
  log st2 = [].
Proof. repeat split. Qed.

(** * Further properties of [component] *)

(** ** The scope check on qualified names *)

Lemma str_split_nonempty sep s : str_split sep s <> [].
Proof.
  destruct s as [|c s]; simpl; [discriminate|].
  destruct (str_split sep s); [discriminate|].
  destruct (Ascii.eqb c sep); discriminate.
Qed.

(** Splitting distributes over a separator. *)
Lemma str_split_app sep a b :
  str_split sep (a ++ String sep b) = str_split sep a ++ str_split sep b.
Proof.
  induction a as [|c a IH]; simpl.
  - pose proof (str_split_nonempty sep b) as Hb.
    destruct (str_split sep b); [contradiction|].
    now rewrite Ascii.eqb_refl.
  - rewrite IH. pose proof (str_split_nonempty sep a) as Ha.
    destruct (str_split sep a); [contradiction|]. simpl.
    now destruct (Ascii.eqb c sep).
Qed.

Lemma contains_app x l1 l2 :
  contains x (l1 ++ l2) = contains x l1 || contains x l2.
Proof. apply existsb_app. Qed.

Lemma contains_locals_closure outer inner :
  contains "<locals>"
    (str_split "." (outer ++ String "." ("<locals>" ++ String "." inner)))
  = true.
Proof.
  rewrite str_split_app, contains_app.
  rewrite (str_split_app "." "<locals>" inner), contains_app.
  change (contains "<locals>" (str_split "." "<locals>")) with true.
  simpl. apply orb_true_r.
Qed.

(** X14: a function defined in a closure, whose qualified name reads
    [outer.<locals>.inner], is refused with the module-level
    [ValueError], whatever its annotations and whatever modules are
    loaded, and nothing is registered. *)
Theorem component_refuses_closures func mods outer inner :
  __qualname__ func
    = (outer ++ String "." ("<locals>" ++ String "." inner))%string ->
  component func mods = (Raise (ValueError Not_at_module_level), mods).
Proof.
  intros Hq. unfold component. simpl.
  now rewrite Hq, contains_locals_closure.
Qed.

Lemma component_refuses_closures_witness :
  component my_component test_modules
  = (Raise (ValueError Not_at_module_level), test_modules).
Proof.
  exact (component_refuses_closures my_component test_modules
           "ComponentDecoratorTest.testDefinitionInClosureFails"
           "my_component" eq_refl).
Defined.

(** ** Failure and success of [component] *)

(** [component] on a function that passes every check. *)
Lemma component_ok func mods c ns :
  contains "<locals>" (str_split "." (__qualname__ func)) = false ->
  parse_typehint_component_function func = Ok c ->
  mods !! __module__ func = Some ns ->
  component func mods =
  (Ok {| component_name := __name__ func;
         SPEC_CLASS :=
           {| spec_class_name := __name__ func ++ "_Spec";
              INPUTS := channel_parameters (inputs c);
              OUTPUTS := channel_parameters (outputs c);
              PARAMETERS := [] |};
         EXECUTOR_SPEC := {| executor_class := generated_executor func c |};
         component_module := __module__ func |},
   <[__module__ func :=
       <[(__name__ func ++ "_Executor")%string :=
           AttrExecutorClass (generated_executor func c)]> ns]> mods).
Proof.
  intros Hscope Hparse Hns. unfold component. simpl. rewrite Hscope.
  unfold bind, lift_result. rewrite Hparse.
  unfold sys_modules_getitem, setattr_module. rewrite Hns. simpl.
  f_equal. apply map_eq. intros k. rewrite lookup_alter, lookup_insert.
  destruct (decide (__module__ func = k)) as [<-|Hne]; [|reflexivity].
  now rewrite Hns.
Qed.

(** X9: [component] fails in three ways only, tried in this order: the
    module-level [ValueError] for a qualified name with a [<locals>]
    piece; the error of the classification of the signature; the
    [KeyError] of the module name when the module of the function is not
    in [sys.modules]. A failed application registers nothing. *)
Theorem component_raise_inv func mods e mods' :
  component func mods = (Raise e, mods') ->
  mods' = mods /\
  ((contains "<locals>" (str_split "." (__qualname__ func)) = true /\
    e = ValueError Not_at_module_level) \/
   (contains "<locals>" (str_split "." (__qualname__ func)) = false /\
    parse_typehint_component_function func = Raise e) \/
   (contains "<locals>" (str_split "." (__qualname__ func)) = false /\
    (exists c, parse_typehint_component_function func = Ok c) /\
    mods !! __module__ func = None /\
    e = KeyError (__module__ func))).
Proof.
  unfold component. simpl.
  destruct (contains "<locals>" (str_split "." (__qualname__ func))).
  - intros [= <- <-]. split; [reflexivity|]. now left.
  - unfold bind, lift_result.
    destruct (parse_typehint_component_function func) as [c|e0].
    + unfold sys_modules_getitem, setattr_module.
      destruct (mods !! __module__ func) as [ns|]; [discriminate|].
      intros [= <- <-]. split; [reflexivity|]. right. right.
      repeat split. now exists c.
    + intros [= <- <-]. split; [reflexivity|]. right. now left.
Qed.

Lemma component_raise_inv_witness :
  component simple_component ∅
  = (Raise (KeyError test_module), ∅).
Proof.
  destruct (component simple_component ∅) as [[comp|e] mods'] eqn:H.
  - exfalso. apply component_ok_inv in H as (c & ns & _ & _ & Hns & _).
    rewrite lookup_empty in Hns. discriminate.
  - destruct (component_raise_inv simple_component ∅ e mods' H)
      as (-> & [[Hscope _]|[[_ Hparse]|(_ & _ & _ & ->)]]).
    + discriminate.
    + rewrite simple_component_classification in Hparse. discriminate.
    + reflexivity.
Defined.

(** ** What registration changes *)

(** Attributes other than the one registered are as they were. *)
Lemma component_other_attributes func mods comp mods' module attr :
  component func mods = (Ok comp, mods') ->
  module <> __module__ func \/
  attr <> (__name__ func ++ "_Executor")%string ->
  getattr_module mods' module attr = getattr_module mods module attr.
Proof.
  intros H Hother.
  apply component_ok_inv in H as (c & ns & _ & _ & Hns & -> & _).
  unfold getattr_module.
  destruct (decide (module = __module__ func)) as [->|Hne].
  - rewrite lookup_insert_eq, Hns.
    destruct Hother as [Hm|Ha]; [contradiction|].
    now rewrite lookup_insert_ne.
  - now rewrite lookup_insert_ne.
Qed.

(** X10: a successful application of [component] changes [sys.modules]
    in one place only, the attribute named after the function in the
    module of the function: no module is added or removed, and every
    other attribute of every module is as it was. *)
Theorem component_registration_frame func mods comp mods' :
  component func mods = (Ok comp, mods') ->
  dom mods' = dom mods /\
  forall module attr,
    module <> __module__ func \/
    attr <> (__name__ func ++ "_Executor")%string ->
    getattr_module mods' module attr = getattr_module mods module attr.
Proof.
  intros H. split.
  - apply component_ok_inv in H as (c & ns & _ & _ & Hns & -> & _).
    apply dom_insert_lookup_L. eauto.
  - intros module attr. exact (component_other_attributes _ _ _ _ _ _ H).
Qed.

Lemma component_registration_frame_witness :
  getattr_module (snd (component simple_component test_modules))
                 test_module "injector_Executor"
  = getattr_module test_modules test_module "injector_Executor".
Proof.
  refine (proj2 (component_registration_frame simple_component test_modules
                   _ (snd (component simple_component test_modules)) eq_refl)
                test_module "injector_Executor" _).
  right. discriminate.
Defined.

(** ** One application after another *)

Lemma list_ascii_of_string_app s t :
  list_ascii_of_string (s ++ t)
  = list_ascii_of_string s ++ list_ascii_of_string t.
Proof. induction s as [|c s IH]; simpl; [reflexivity | now rewrite IH]. Qed.

(** A common suffix can be cancelled. *)
Lemma string_app_inv_tail s1 s2 t : (s1 ++ t = s2 ++ t)%string -> s1 = s2.
Proof.
  intros H. apply (f_equal list_ascii_of_string) in H.
  rewrite !list_ascii_of_string_app in H. apply app_inv_tail in H.
  apply (f_equal string_of_list_ascii) in H.
  now rewrite !string_of_list_ascii_of_string in H.
Qed.

Lemma resolve_executor_getattr mods module attr :
  resolve_executor mods module attr =
  match getattr_module mods module attr with
  | Some (AttrExecutorClass c) => Some c
  | _ => None
  end.
Proof.
  unfold resolve_executor, getattr_module. now destruct (mods !! module).
Qed.

(** X12: after [component] has been applied to [f] and then to [g], the
    executor class of [g] is resolved under its name; that of [f] is
    still resolved under its own name when the two functions differ in
    module or in name, and has been replaced by that of [g] when they
    share both (the last registration wins). *)
Theorem component_then_component f g mods cf mods1 cg mods2 :
  component f mods = (Ok cf, mods1) ->
  component g mods1 = (Ok cg, mods2) ->
  resolve_executor mods2 (__module__ g) (__name__ g ++ "_Executor")
    = Some (executor_class (EXECUTOR_SPEC cg)) /\
  (__module__ f <> __module__ g \/ __name__ f <> __name__ g ->
   resolve_executor mods2 (__module__ f) (__name__ f ++ "_Executor")
     = Some (executor_class (EXECUTOR_SPEC cf))) /\
  (__module__ f = __module__ g -> __name__ f = __name__ g ->
   resolve_executor mods2 (__module__ f) (__name__ f ++ "_Executor")
     = Some (executor_class (EXECUTOR_SPEC cg))).
Proof.
  intros Hf Hg.
  assert (Hrg : resolve_executor mods2 (__module__ g)
                  (__name__ g ++ "_Executor")
                = Some (executor_class (EXECUTOR_SPEC cg))).
  { apply component_ok_inv in Hg as (c & ns & _ & _ & _ & -> & ->).
    unfold resolve_executor. simpl.
    now rewrite lookup_insert_eq, lookup_insert_eq. }
  split; [exact Hrg|]. split.
  - intros Hdiff.
    assert (Hrf : getattr_module mods1 (__module__ f)
                    (__name__ f ++ "_Executor")
                  = Some (AttrExecutorClass (executor_class (EXECUTOR_SPEC cf)))).
    { apply component_ok_inv in Hf as (c & ns & _ & _ & _ & -> & ->).
      unfold getattr_module. simpl.
      now rewrite lookup_insert_eq, lookup_insert_eq. }
    rewrite resolve_executor_getattr,
      (component_other_attributes g mods1 cg mods2 _ _ Hg), Hrf;
      [reflexivity|].
    destruct Hdiff as [Hm|Hn]; [now left|]. right. intros Heq.
    apply Hn. now apply string_app_inv_tail in Heq.
  - intros Hm Hn. now rewrite Hm, Hn.
Qed.

Lemma component_then_component_witness :
  resolve_executor
    (snd (component injector
            (snd (component simple_component test_modules))))
    test_module "simple_component_Executor"
  = Some simple_component_Executor.
Proof.
  refine (proj1 (proj2
    (component_then_component simple_component injector test_modules
       _ (snd (component simple_component test_modules))
       _ (snd (component injector
                 (snd (component simple_component test_modules))))
       eq_refl eq_refl)) _).
  right. discriminate.
Defined.

(** ** The generated specification *)

Lemma dict_set_fresh {V} (d : list (string * V)) key v :
  ~ In key (map fst d) -> dict_set d key v = d ++ [(key, v)].
Proof.
  induction d as [|[k w] d IH]; intros Hfresh; [reflexivity|].
  simpl in *. destruct (String.eqb_spec k key) as [->|Hne].
  - exfalso. apply Hfresh. now left.
  - f_equal. apply IH. intros Hin. apply Hfresh. now right.
Qed.

Lemma channel_parameters_acc d :
  forall acc,
    NoDup (map fst acc ++ map fst d) ->
    fold_left (fun channels '(key, artifact_type) =>
                 dict_set channels key {| channel_type := artifact_type |})
              d acc
    = acc ++ map channel_of d.
Proof.
  induction d as [|[k t] d IH]; intros acc Hnd; simpl.
  - now rewrite app_nil_r.
  - rewrite dict_set_fresh.
    + rewrite IH.
      * now rewrite <- app_assoc.
      * rewrite map_app. simpl. rewrite <- app_assoc. exact Hnd.
    + intros Hin. apply NoDup_app in Hnd as (_ & Hdisj & _).
      apply (Hdisj k); [now apply list_elem_of_In | simpl; left].
Qed.

(** With unique keys, the channels are the entries in order, each type
    wrapped in a [ChannelParameter]. *)
Lemma channel_parameters_map d :
  NoDup (map fst d) -> channel_parameters d = map channel_of d.
Proof. intros Hnd. unfold channel_parameters. now rewrite channel_parameters_acc. Qed.

(** X13: the component class generated for a function bears the name
    and the module of the function; its specification class is named
    after the function with the suffix [_Spec], declares one input
    channel per classified input and one output channel per classified
    output, in the order of classification and with the classified type,
    and declares no parameters. *)
Theorem component_spec_class func mods comp mods' c :
  component func mods = (Ok comp, mods') ->
  parse_typehint_component_function func = Ok c ->
  NoDup (map fst (inputs c)) ->
  NoDup (map fst (outputs c)) ->
  component_name comp = __name__ func /\
  component_module comp = __module__ func /\
  spec_class_name (SPEC_CLASS comp) = (__name__ func ++ "_Spec")%string /\
  INPUTS (SPEC_CLASS comp) = map channel_of (inputs c) /\
  OUTPUTS (SPEC_CLASS comp) = map channel_of (outputs c) /\
  PARAMETERS (SPEC_CLASS comp) = [].
Proof.
  intros H Hparse Hin Hout.
  apply component_ok_inv in H as (c' & ns & _ & Hparse' & _ & _ & ->).
  rewrite Hparse in Hparse'. injection Hparse' as <-. simpl.
  now rewrite !channel_parameters_map.
Qed.

Lemma component_spec_class_witness :
  match fst (component simple_component test_modules) with
  | Ok comp =>
      INPUTS (SPEC_CLASS comp)
      = [("a", {| channel_type := KInteger |});
         ("b", {| channel_type := KInteger |});
         ("c", {| channel_type := KString |});
         ("d", {| channel_type := KBytes |})] /\
      OUTPUTS (SPEC_CLASS comp) = []
  | Raise _ => False
  end.
Proof.
  destruct (component_spec_class simple_component test_modules
              {| component_name := "simple_component";
                 SPEC_CLASS :=
                   {| spec_class_name := "simple_component_Spec";
                      INPUTS :=
                        [("a", {| channel_type := KInteger |});
                         ("b", {| channel_type := KInteger |});
                         ("c", {| channel_type := KString |});
                         ("d", {| channel_type := KBytes |})];
                      OUTPUTS := [];
                      PARAMETERS := [] |};
                 EXECUTOR_SPEC :=
                   {| executor_class := simple_component_Executor |};
                 component_module := test_module |}
              (snd (component simple_component test_modules)) _
              eq_refl simple_component_classification)
    as (_ & _ & _ & Hin & Hout & _).
  - simpl. apply (bool_decide_unpack _). reflexivity.
  - simpl. apply NoDup_nil_2.
  - simpl. split; [exact Hin | exact Hout].
Defined.

(** * The components of the test module, in general *)

(** [float] of an integer raises nothing but [OverflowError]. *)
Lemma float_of_int_raise n e : float_of_int n = Raise e -> e = OverflowError.
Proof.
  unfold float_of_int.
  destruct (binary_normalize 53 1024 n 0 false); congruence.
Qed.

(** The code of [simple_component] on two integers. *)
Lemma simple_component_call a b c d st :
  __call__ simple_component [VInt a; VInt b; c; d] st =
  match float_of_int (a + b) with
  | Ok fe =>
      match float_of_int (a * b) with
      | Ok ff => (Ok (VDict [(VStr "e", VFloat fe); (VStr "f", VFloat ff)]), st)
      | Raise e => (Raise e, st)
      end
  | Raise e => (Raise e, st)
  end.
Proof.
  cbv [__call__ simple_component bind lift_result ret
       py_add py_mul py_float as_float as_int].
  destruct (float_of_int (a + b)); [|reflexivity].
  now destruct (float_of_int (a * b)).
Qed.

Lemma simple_component_arguments input_dict output_dict st la lb lc ld :
  first_artifact input_dict "a" = Some la ->
  first_artifact input_dict "b" = Some lb ->
  first_artifact input_dict "c" = Some lc ->
  first_artifact input_dict "d" = Some ld ->
  Do_arguments input_dict output_dict
    (_ARG_FORMATS simple_component_Executor) [] st
  = (Ok [value (heap st la); value (heap st lb);
         value (heap st lc); value (heap st ld)], st).
Proof.
  intros Ha Hb Hc Hd.
  apply (Do_arguments_resolved input_dict output_dict st
           (_ARG_FORMATS simple_component_Executor)
           [value (heap st la); value (heap st lb);
            value (heap st lc); value (heap st ld)]).
  repeat constructor; assumption.
Qed.

(** X15: [simple_component], given integers [a] and [b] in its first
    two input artifacts (and anything in the other two), writes
    [float(a + b)] into the first artifact of [e] and [float(a * b)] into
    that of [f], two distinct artifacts, and logs nothing. *)
Theorem simple_component_adds_and_multiplies
    input_dict output_dict exec_properties st la lb lc ld le lf a b fe ff :
  first_artifact input_dict "a" = Some la ->
  first_artifact input_dict "b" = Some lb ->
  first_artifact input_dict "c" = Some lc ->
  first_artifact input_dict "d" = Some ld ->
  value (heap st la) = VInt a ->
  value (heap st lb) = VInt b ->
  float_of_int (a + b) = Ok fe ->
  float_of_int (a * b) = Ok ff ->
  first_artifact output_dict "e" = Some le ->
  first_artifact output_dict "f" = Some lf ->
  le <> lf ->
  exists st',
    Do simple_component_Executor input_dict output_dict exec_properties st
      = (Ok VNone, st') /\
    value (heap st' le) = VFloat fe /\
    value (heap st' lf) = VFloat ff /\
    log st' = log st.
Proof.
  intros Ha Hb Hc Hd Hva Hvb Hfe Hff He Hf Hne.
  rewrite (Do_after_arguments _ _ _ _ _ _
             (simple_component_arguments _ output_dict st _ _ _ _
                Ha Hb Hc Hd)).
  unfold bind at 1. simpl _FUNCTION.
  rewrite Hva, Hvb, simple_component_call, Hfe, Hff, Do_outputs_dict.
  unfold bind. simpl _RETURNED_VALUES.
  rewrite Do_assign_step. simpl dict_get. cbv iota. rewrite He.
  rewrite Do_assign_step. simpl dict_get. cbv iota. rewrite Hf.
  simpl. eexists. split; [reflexivity|]. simpl. repeat split.
  - rewrite heap_set_value_ne by exact Hne. now rewrite heap_set_value_eq.
  - now rewrite heap_set_value_eq.
Qed.

Lemma simple_component_adds_and_multiplies_witness :
  exists st',
    Do simple_component_Executor simple_inputs simple_outputs ∅ simple_state
      = (Ok VNone, st') /\
    value (heap st' 4%nat) = VFloat float_32 /\
    value (heap st' 5%nat) = VFloat float_220 /\
    log st' = [].
Proof.
  exact (simple_component_adds_and_multiplies
           simple_inputs simple_outputs ∅ simple_state
           0%nat 1%nat 2%nat 3%nat 4%nat 5%nat 10 22 float_32 float_220
           eq_refl eq_refl eq_refl eq_refl eq_refl eq_refl eq_refl eq_refl
           eq_refl eq_refl ltac:(discriminate)).
Defined.

(** X16: when the sum or the product of the two integers is beyond the
    largest float, [simple_component] raises [OverflowError], which comes
    out of [Do] with the state untouched: nothing is written or logged. *)
Theorem simple_component_overflow
    input_dict output_dict exec_properties st la lb lc ld a b :
  first_artifact input_dict "a" = Some la ->
  first_artifact input_dict "b" = Some lb ->
  first_artifact input_dict "c" = Some lc ->
  first_artifact input_dict "d" = Some ld ->
  value (heap st la) = VInt a ->
  value (heap st lb) = VInt b ->
  float_of_int (a + b) = Raise OverflowError \/
  float_of_int (a * b) = Raise OverflowError ->
  Do simple_component_Executor input_dict output_dict exec_properties st
  = (Raise OverflowError, st).
Proof.
  intros Ha Hb Hc Hd Hva Hvb Hover.
  rewrite (Do_after_arguments _ _ _ _ _ _
             (simple_component_arguments _ output_dict st _ _ _ _
                Ha Hb Hc Hd)).
  unfold bind. simpl _FUNCTION.
  rewrite Hva, Hvb, simple_component_call.
  destruct (float_of_int (a + b)) as [fe|e] eqn:Hfe.
  - destruct Hover as [Hover|Hover]; [discriminate|]. now rewrite Hover.
  - now rewrite (float_of_int_raise _ _ Hfe).
Qed.

Lemma simple_component_overflow_witness :
  Do simple_component_Executor simple_inputs simple_outputs ∅ huge_state
  = (Raise OverflowError, huge_state).
Proof.
  apply (simple_component_overflow simple_inputs simple_outputs ∅ huge_state
           0%nat 1%nat 2%nat 3%nat (2 ^ 1024) 1);
    try reflexivity.
  left. vm_compute. reflexivity.
Defined.
